(** * Verification of the multi-account WhatsApp gateway server

    A shallow embedding of [server/index.js] and the properties its
    specification states about it.

    Modelling conventions.
    - A JavaScript string is a [string]; one character stands for one
      UTF-16 code unit (identifiers handled by the server are ASCII).
    - A value that may be a string, [null] or [undefined] is a [jsval];
      [truthy] and [jsor] are JavaScript's truthiness and [||].
    - Numbers handled by the code are integer epoch seconds and counters:
      they are [Z]; a number that may be [undefined] is an [option Z].
    - A JavaScript [Map] is an association list in insertion order
      ([Map.prototype.set] keeps the position of an existing key and
      appends a new one), because the phone-number scan of
      [getContactInfo] iterates the entries in that order.
    - Every handler runs to completion before the next one starts; an
      [await] is a sequencing point.
    - The gateway session ([account.sock]) is a record of oracles: what a
      lookup answers, or that it throws. *)

From Stdlib Require Import String Ascii List ZArith Bool Lia Arith.
From Stdlib Require Import Sorted Permutation.
Import ListNotations.

Local Open Scope string_scope.
Local Open Scope list_scope.
Local Open Scope Z_scope.

(** ** JavaScript values *)

Module JS.

Inductive jsval : Type :=
| JUndef
| JNull
| JStr (s : string).

Definition truthy (v : jsval) : bool :=
  match v with
  | JStr s => negb (s =? "")%string
  | _ => false
  end.

(** [a || b] *)
Definition jsor (a b : jsval) : jsval := if truthy a then a else b.

(** [a || null] *)
Definition or_null (a : jsval) : jsval := jsor a JNull.

Definition jsval_eqb (a b : jsval) : bool :=
  match a, b with
  | JUndef, JUndef => true
  | JNull, JNull => true
  | JStr s, JStr t => (s =? t)%string
  | _, _ => false
  end.

(** A number or [undefined]. *)
Definition jsnum := option Z.

Definition num_truthy (n : jsnum) : bool :=
  match n with
  | Some z => negb (z =? 0)
  | None => false
  end.

Definition num_or (a b : jsnum) : jsnum := if num_truthy a then a else b.

(** [n || 0] *)
Definition num_or0 (n : jsnum) : Z :=
  match n with
  | Some z => z
  | None => 0
  end.

(** *** Strings *)

Definition is_digit (c : ascii) : bool :=
  let n := nat_of_ascii c in (48 <=? n)%nat && (n <=? 57)%nat.

Fixpoint includes_char (c : ascii) (s : string) : bool :=
  match s with
  | EmptyString => false
  | String d r => (Ascii.eqb c d) || includes_char c r
  end.

(** [s.split(c)[0]] *)
Fixpoint before_char (c : ascii) (s : string) : string :=
  match s with
  | EmptyString => EmptyString
  | String d r => if Ascii.eqb c d then EmptyString else String d (before_char c r)
  end.

Definition startsWith (s p : string) : bool := String.prefix p s.

Definition str_len (s : string) : Z := Z.of_nat (String.length s).

(** [s.slice(a)] for [0 <= a] *)
Fixpoint slice_from (a : nat) (s : string) : string :=
  match a, s with
  | O, _ => s
  | S a', EmptyString => EmptyString
  | S a', String _ r => slice_from a' r
  end.

(** [s.slice(0, n)] *)
Fixpoint take (n : nat) (s : string) : string :=
  match n, s with
  | O, _ => EmptyString
  | S _, EmptyString => EmptyString
  | S n', String c r => String c (take n' r)
  end.

(** [s.slice(a, b)] for [0 <= a], [0 <= b] *)
Definition slice (a b : nat) (s : string) : string :=
  take (b - a) (slice_from a s).

(** [s.slice(-n)] for [0 < n] *)
Definition slice_last (n : nat) (s : string) : string :=
  slice_from (String.length s - n) s.

Definition endsWith (s suffix : string) : bool :=
  (String.length suffix <=? String.length s)%nat
  && (slice_last (String.length suffix) s =? suffix)%string.

(** *** Map *)

Section JsMap.
Context {V : Type}.

Definition jsmap := list (jsval * V).

Fixpoint map_get (k : jsval) (m : jsmap) : option V :=
  match m with
  | [] => None
  | (k', v) :: r => if jsval_eqb k k' then Some v else map_get k r
  end.

Definition map_has (k : jsval) (m : jsmap) : bool :=
  match map_get k m with
  | Some _ => true
  | None => false
  end.

Fixpoint map_set (k : jsval) (v : V) (m : jsmap) : jsmap :=
  match m with
  | [] => [(k, v)]
  | (k', v') :: r =>
      if jsval_eqb k k' then (k', v) :: r else (k', v') :: map_set k v r
  end.

Definition map_clear (m : jsmap) : jsmap := [].

Definition map_values (m : jsmap) : list V := map snd m.
End JsMap.

Arguments jsmap V : clear implicits.

End JS.
Import JS.

(** ** Identity resolution *)

(** The remainder after one or more digits and an ["@"], if [s] starts
    so: the tail of a match of [/[\d]+@/] anchored at the head of [s]. *)
Fixpoint skip_digits (s : string) : string :=
  match s with
  | String c r => if is_digit c then skip_digits r else s
  | EmptyString => s
  end.

Definition match_device (s : string) : option string :=
  match s with
  | String c r =>
      if is_digit c then
        match skip_digits r with
        | String "@" rest => Some rest
        | _ => None
        end
      else None
  | EmptyString => None
  end.

(** [s.replace(/:[\d]+@/, '@')]: the leftmost match only. *)
Fixpoint replace_device (s : string) : string :=
  match s with
  | EmptyString => EmptyString
  | String c r =>
      if Ascii.eqb c ":" then
        match match_device r with
        | Some rest => String "@" rest
        | None => String c (replace_device r)
        end
      else String c (replace_device r)
  end.

Definition default_domain : string := "@s.whatsapp.net".

Definition normalizeJid (jid : jsval) : jsval :=
  if negb (truthy jid) then JNull
  else
    match jid with
    | JStr s =>
        let normalized := replace_device s in
        if negb (includes_char "@" normalized)
        then JStr (normalized ++ default_domain)
        else JStr normalized
    | _ => JNull
    end.

Definition getPhoneFromJid (jid : jsval) : string :=
  if negb (truthy jid) then ""
  else
    match jid with
    | JStr s => before_char ":" (before_char "@" s)
    | _ => ""
    end.

(** ** Data model *)

Module Contact.
(** A stored directory record: [{ name, notify, verifiedName }]. *)
Record t := mk { name : jsval; notify : jsval; verifiedName : jsval }.

(** [{}] *)
Definition empty : t := mk JUndef JUndef JUndef.
End Contact.

Module WAContact.
(** An item of a [contacts.upsert] or [contacts.update] batch. *)
Record t := mk { id : string; name : jsval; notify : jsval; verifiedName : jsval }.
End WAContact.

Module Content.
Record ImageMessage := mkImage { caption : jsval; mimetype : jsval }.
Record VideoMessage := mkVideo { vcaption : jsval }.
Record AudioMessage := mkAudio { amimetype : jsval }.
Record DocumentMessage := mkDocument { fileName : jsval }.

(** [msg.message]: the fields [formatMessage] inspects. *)
Record t := mk {
  conversation : jsval;
  extendedTextMessage : option jsval;   (* its [text] *)
  imageMessage : option ImageMessage;
  videoMessage : option VideoMessage;
  audioMessage : option AudioMessage;
  documentMessage : option DocumentMessage;
  stickerMessage : bool
}.
End Content.

Module Msg.
Record key_t := mkKey { remoteJid : string; id : string; fromMe : bool }.
Record t := mk {
  key : key_t;
  message : option Content.t;
  messageTimestamp : Z;
  pushName : jsval
}.
End Msg.

Inductive MsgType := text_t | image_t | video_t | audio_t | document_t | sticker_t.

Module Formatted.
(** What [formatMessage] returns. *)
Record t := mk {
  id : string;
  fromMe : bool;
  text : string;
  type : MsgType;
  mediaData : option string;   (* base64, or null *)
  mediaMimetype : jsval;
  timestamp : Z;
  pushName : jsval
}.
End Formatted.

Module Chat.
Record t := mk {
  id : string;
  name : jsval;
  lastMessage : option Formatted.t;
  timestamp : jsnum;
  conversationTimestamp : jsnum;
  unreadCount : jsnum
}.
End Chat.

Module ChatUpdate.
(** A partial chat: [None] is an absent property. *)
Record t := mk {
  id : string;
  name : option jsval;
  lastMessage : option (option Formatted.t);
  timestamp : option jsnum;
  conversationTimestamp : option jsnum;
  unreadCount : option jsnum
}.
End ChatUpdate.

Module FChat.
(** An entry of the chat-list projection. *)
Record t := mk {
  id : string;
  name : jsval;
  profilePic : jsval;
  lastMessage : option Formatted.t;
  timestamp : jsnum;
  unreadCount : Z
}.
End FChat.

Module Sock.
Record GroupMetadata := mkMetadata { subject : string }.

(** The gateway session as the server uses it.  [None] from an oracle
    is a rejected promise. *)
Record t := mk {
  user_id : jsval;                                        (* [sock.user?.id] *)
  groupMetadata : string -> option GroupMetadata;
  profilePictureUrl : string -> option jsval;
  groupFetchAllParticipating : bool;                      (* resolves? *)
  store_contacts : option (list (string * Contact.t))     (* [sock.store?.contacts] *)
}.
End Sock.

Inductive ConnState := disconnected | qr | connected.

Definition ConnState_eqb (a b : ConnState) : bool :=
  match a, b with
  | disconnected, disconnected | qr, qr | connected, connected => true
  | _, _ => false
  end.

Module Account.
Record t := mk {
  id : string;
  name : string;
  sock : option Sock.t;
  connectionState : ConnState;
  qrCodeData : option string;
  chats : jsmap Chat.t;
  messages : jsmap (list Msg.t);
  contacts : jsmap Contact.t;
  profilePics : jsmap jsval;
  pushNames : jsmap jsval;
  authFolder : string;
  phoneNumber : jsval
}.

Definition set_sock v a := mk (id a) (name a) v (connectionState a) (qrCodeData a) (chats a) (messages a) (contacts a) (profilePics a) (pushNames a) (authFolder a) (phoneNumber a).
Definition set_connectionState v a := mk (id a) (name a) (sock a) v (qrCodeData a) (chats a) (messages a) (contacts a) (profilePics a) (pushNames a) (authFolder a) (phoneNumber a).
Definition set_qrCodeData v a := mk (id a) (name a) (sock a) (connectionState a) v (chats a) (messages a) (contacts a) (profilePics a) (pushNames a) (authFolder a) (phoneNumber a).
Definition set_chats v a := mk (id a) (name a) (sock a) (connectionState a) (qrCodeData a) v (messages a) (contacts a) (profilePics a) (pushNames a) (authFolder a) (phoneNumber a).
Definition set_messages v a := mk (id a) (name a) (sock a) (connectionState a) (qrCodeData a) (chats a) v (contacts a) (profilePics a) (pushNames a) (authFolder a) (phoneNumber a).
Definition set_contacts v a := mk (id a) (name a) (sock a) (connectionState a) (qrCodeData a) (chats a) (messages a) v (profilePics a) (pushNames a) (authFolder a) (phoneNumber a).
Definition set_profilePics v a := mk (id a) (name a) (sock a) (connectionState a) (qrCodeData a) (chats a) (messages a) (contacts a) v (pushNames a) (authFolder a) (phoneNumber a).
Definition set_pushNames v a := mk (id a) (name a) (sock a) (connectionState a) (qrCodeData a) (chats a) (messages a) (contacts a) (profilePics a) v (authFolder a) (phoneNumber a).
Definition set_phoneNumber v a := mk (id a) (name a) (sock a) (connectionState a) (qrCodeData a) (chats a) (messages a) (contacts a) (profilePics a) (pushNames a) (authFolder a) v.

(** [toJSON()] *)
Record json := mkJson {
  j_id : string; j_name : string; j_connectionState : ConnState; j_phoneNumber : jsval
}.
Definition toJSON (a : t) : json :=
  mkJson (id a) (name a) (connectionState a) (phoneNumber a).
End Account.

(** ** Notifications *)

Inductive Event :=
| account_qr (accountId : string) (qr : string)
| account_status (accountId : string) (status : ConnState) (message : string)
| accounts_update (accounts : list Account.json)
| chats_update (accountId : string) (chats : list FChat.t)
| new_message (accountId jid : string) (message : Formatted.t) (contact profilePic : jsval)
| message_sent (accountId jid : string) (message : Formatted.t)
| messages_ev (accountId jid : string) (contact profilePic : jsval) (messages : list Formatted.t)
| history_ev (accountId jid : string) (messages : list Formatted.t) (total : Z)
| error_ev (message : string).

(** [io.emit] reaches every observer, [socket.emit] the requesting one. *)
Inductive Emission :=
| io_emit (e : Event)
| socket_emit (e : Event).

Definition is_chats_broadcast (e : Emission) : bool :=
  match e with
  | io_emit (chats_update _ _) => true
  | _ => false
  end.

(** The number of chat-list broadcasts in a trace. *)
Definition chats_broadcasts (log : list Emission) : nat :=
  List.length (filter is_chats_broadcast log).

Module Info.
(** What [getContactInfo] returns. *)
Record t := mk { name : jsval; profilePic : jsval }.
End Info.

(** ** Process state *)

Module Fs.
(** The credential folders: a directory path and the files in it. *)
Definition t := list (string * list string).

Fixpoint lookup (path : string) (fs : t) : option (list string) :=
  match fs with
  | [] => None
  | (p, files) :: r => if (path =? p)%string then Some files else lookup path r
  end.

Definition existsSync (path : string) (fs : t) : bool :=
  match lookup path fs with
  | Some _ => true
  | None => false
  end.

(** [fs.rmSync(path, { recursive: true, force: true })] *)
Definition rmSync (path : string) (fs : t) : t :=
  filter (fun e => negb (path =? fst e)%string) fs.

(** [fs.mkdirSync(path, { recursive: true })] *)
Definition mkdirSync (path : string) (fs : t) : t :=
  if existsSync path fs then fs else fs ++ [(path, [])].
End Fs.

Module Saved.
(** A record of [accounts.json]. *)
Record t := mk { id : string; name : string; phoneNumber : jsval }.
End Saved.

Module World.
(** Account objects live in [heap]; the handlers installed by
    [connectAccount] hold a reference to theirs, and the registry
    [accounts] maps an account id to a reference. *)
Record t := mk {
  heap : list Account.t;
  accounts : jsmap nat;
  auth : Fs.t;
  accounts_file : option (list Saved.t);
  reconnects : list nat       (* accounts with a reconnection timer pending *)
}.

Definition deref (r : nat) (w : t) : option Account.t := nth_error (heap w) r.

Fixpoint update_nth {A : Type} (n : nat) (x : A) (l : list A) : list A :=
  match n, l with
  | _, [] => []
  | O, _ :: r => x :: r
  | S n', y :: r => y :: update_nth n' x r
  end.

Definition store (r : nat) (a : Account.t) (w : t) : t :=
  mk (update_nth r a (heap w)) (accounts w) (auth w) (accounts_file w) (reconnects w).

Definition set_auth (fs : Fs.t) (w : t) : t :=
  mk (heap w) (accounts w) fs (accounts_file w) (reconnects w).

Definition set_accounts_file (f : option (list Saved.t)) (w : t) : t :=
  mk (heap w) (accounts w) (auth w) f (reconnects w).

Definition schedule_reconnect (r : nat) (w : t) : t :=
  mk (heap w) (accounts w) (auth w) (accounts_file w) (reconnects w ++ [r]).

(** [Array.from(accounts.values())] *)
Definition values (w : t) : list Account.t :=
  flat_map (fun r => match deref r w with
                     | Some a => [a]
                     | None => []
                     end) (map_values (accounts w)).
End World.

Inductive Connection := conn_close | conn_open | conn_connecting.

Module ConnUpdate.
(** A [connection.update] event; [statusCode] is
    [lastDisconnect?.error?.output?.statusCode]. *)
Record t := mk { connection : option Connection; statusCode : jsnum; qr : jsval }.
End ConnUpdate.

Inductive UpsertType := notify | append.

(** What the gateway call of [send-message] came to. *)
Inductive SendOutcome :=
| send_threw
| send_nothing
| send_ok (sent : Msg.t).

(** ** Arrays *)

Section Arrays.
Context {A : Type}.

(** [Array.prototype.sort(cmp)] is stable: for a comparator that is a
    difference of integer keys its result is the stable sorted
    rearrangement, which insertion from the right computes. *)
Fixpoint sort_insert (cmp : A -> A -> Z) (x : A) (l : list A) : list A :=
  match l with
  | [] => [x]
  | y :: r => if cmp x y <=? 0 then x :: y :: r else y :: sort_insert cmp x r
  end.

Definition array_sort (cmp : A -> A -> Z) (l : list A) : list A :=
  fold_right (sort_insert cmp) [] l.

(** [l.slice(start)] *)
Definition array_slice_from (start : Z) (l : list A) : list A :=
  let len := Z.of_nat (List.length l) in
  let k := if start <? 0 then Z.max (len + start) 0 else Z.min start len in
  skipn (Z.to_nat k) l.

(** [l.slice(0, n)] *)
Definition array_slice_to (n : nat) (l : list A) : list A := firstn n l.
End Arrays.

(** ** Registry commands: data *)

(** What a registry command sends besides the notifications above:
    [account-created] and [new-chat-ready] go to the requesting observer
    only. *)
Inductive Reply :=
| notice (e : Emission)
| account_created (accountId : string) (name : jsval)
| new_chat_ready (accountId jid : string) (name profilePic : jsval).

Module OnWhatsApp.
(** An element of what [sock.onWhatsApp(number)] resolves to. *)
Record t := mk { found : bool; jid : string }.   (* [exists], [jid] *)
End OnWhatsApp.

(** [m.delete(k)] *)
Definition map_delete {V : Type} (k : jsval) (m : jsmap V) : jsmap V :=
  filter (fun e => negb (jsval_eqb k (fst e))) m.

(** A new object on the heap, and the reference to it. *)
Definition world_alloc (a : Account.t) (w : World.t) : nat * World.t :=
  (List.length (World.heap w),
   World.mk (World.heap w ++ [a]) (World.accounts w) (World.auth w)
     (World.accounts_file w) (World.reconnects w)).

Definition world_set_accounts (m : jsmap nat) (w : World.t) : World.t :=
  World.mk (World.heap w) m (World.auth w) (World.accounts_file w)
    (World.reconnects w).

(** [account.name = name] *)
Definition account_set_name (name : string) (a : Account.t) : Account.t :=
  Account.mk (Account.id a) name (Account.sock a) (Account.connectionState a)
    (Account.qrCodeData a) (Account.chats a) (Account.messages a)
    (Account.contacts a) (Account.profilePics a) (Account.pushNames a)
    (Account.authFolder a) (Account.phoneNumber a).

(** [s.includes(sub)] *)
Fixpoint includes_str (sub s : string) : bool :=
  String.prefix sub s
  || match s with
     | EmptyString => false
     | String _ r => includes_str sub r
     end.

(** [s.replace(/\D/g, '')] *)
Fixpoint only_digits (s : string) : string :=
  match s with
  | EmptyString => EmptyString
  | String c r => if is_digit c then String c (only_digits r) else only_digits r
  end.

Module Files.
(** The upload folder: a file path and the bytes stored under it. *)
Definition t := list (string * string).

Fixpoint readFileSync (path : string) (fs : t) : option string :=
  match fs with
  | [] => None
  | (p, content) :: r => if (path =? p)%string then Some content else readFileSync path r
  end.

(** [try { fs.unlinkSync(path) } catch {}] *)
Definition unlinkSync (path : string) (fs : t) : t :=
  filter (fun e => negb (path =? fst e)%string) fs.

Definition writeFileSync (path content : string) (fs : t) : t :=
  unlinkSync path fs ++ [(path, content)].
End Files.

(** What the external encoder does with the input file: it ends having
    written its output, or it reports an error, with or without a partial
    output file left behind. *)
Inductive Encoder :=
| encoder_end (output : string)
| encoder_error (partial : option string).

(** ** The server *)

Section Server.

(** [downloadMediaMessage(msg, 'buffer', {})] as base64, [None] when it
    throws. *)
Variable downloadMediaMessage : Msg.t -> option string.

Definition str_of (v : jsval) : string :=
  match v with
  | JStr s => s
  | _ => ""
  end.

(** [v || d] for a string default [d] *)
Definition str_or (v : jsval) (d : string) : string :=
  if truthy v then str_of v else d.

Definition download (msg : Msg.t) (downloadMedia : bool) : option string :=
  if downloadMedia then downloadMediaMessage msg else None.

Definition formatMessage (msg : Msg.t) (downloadMedia : bool) : Formatted.t :=
  let content := Msg.message msg in
  let out text type mediaData mediaMimetype :=
    Formatted.mk (Msg.id (Msg.key msg)) (Msg.fromMe (Msg.key msg)) text type
      mediaData mediaMimetype (Msg.messageTimestamp msg) (Msg.pushName msg) in
  let unsupported := out "[Mensagem não suportada]" text_t None JNull in
  match content with
  | None => unsupported
  | Some c =>
      if truthy (Content.conversation c) then
        out (str_of (Content.conversation c)) text_t None JNull
      else if match Content.extendedTextMessage c with
              | Some t => truthy t
              | None => false
              end then
        out (match Content.extendedTextMessage c with
             | Some t => str_of t
             | None => ""
             end) text_t None JNull
      else
        match Content.imageMessage c with
        | Some im =>
            out (str_or (Content.caption im) "") image_t
              (download msg downloadMedia) (Content.mimetype im)
        | None =>
        match Content.videoMessage c with
        | Some vm => out (str_or (Content.vcaption vm) "") video_t None JNull
        | None =>
        match Content.audioMessage c with
        | Some am =>
            out "" audio_t (download msg downloadMedia) (Content.amimetype am)
        | None =>
        match Content.documentMessage c with
        | Some dm => out (str_or (Content.fileName dm) "Documento") document_t None JNull
        | None =>
            if Content.stickerMessage c then out "" sticker_t None JNull
            else unsupported
        end end end end
  end.

Definition getProfilePicture (account : Account.t) (jid : string)
  : jsval * Account.t :=
  let pics := Account.profilePics account in
  if map_has (JStr jid) pics then
    (match map_get (JStr jid) pics with
     | Some v => v
     | None => JUndef
     end, account)
  else
    match match Account.sock account with
          | Some s => Sock.profilePictureUrl s jid
          | None => None
          end with
    | Some url => (url, Account.set_profilePics (map_set (JStr jid) url pics) account)
    | None => (JNull, Account.set_profilePics (map_set (JStr jid) JNull pics) account)
    end.

(** [c.name || c.notify || c.verifiedName] *)
Definition contact_display (c : Contact.t) : jsval :=
  jsor (jsor (Contact.name c) (Contact.notify c)) (Contact.verifiedName c).

(** The loop over [account.contacts.entries()]. *)
Fixpoint scan_contacts (entries : jsmap Contact.t) (phoneNumber : string)
         (name : jsval) : jsval :=
  match entries with
  | [] => name
  | (key, value) :: rest =>
      if (getPhoneFromJid key =? phoneNumber)%string then
        let name := contact_display value in
        if truthy name then name else scan_contacts rest phoneNumber name
      else scan_contacts rest phoneNumber name
  end.

(** [m.get(k)], [undefined] when absent *)
Definition get_or_undef (k : jsval) (m : jsmap jsval) : jsval :=
  match map_get k m with
  | Some v => v
  | None => JUndef
  end.

(** A value used as an object's property key. *)
Definition property_key (v : jsval) : string :=
  match v with
  | JStr s => s
  | JNull => "null"
  | JUndef => "undefined"
  end.

Fixpoint object_get {V : Type} (k : string) (o : list (string * V)) : option V :=
  match o with
  | [] => None
  | (k', v) :: r => if (k =? k')%string then Some v else object_get k r
  end.

(** The formatting of an ordinary number. *)
Definition format_number (number : string) : string :=
  if startsWith number "55" && (12 <=? String.length number)%nat then
    let ddd := slice 2 4 number in
    let rest := slice_from 4 number in
    if (String.length rest =? 9)%nat then
      "(" ++ ddd ++ ") " ++ slice 0 5 rest ++ "-" ++ slice_from 5 rest
    else if (String.length rest =? 8)%nat then
      "(" ++ ddd ++ ") " ++ slice 0 4 rest ++ "-" ++ slice_from 4 rest
    else "+" ++ number
  else "+" ++ number.

(** The part of [getContactInfo] that only reads: the name the
    directory, the push-name table or the session's store holds, if any. *)
Definition lookup_name (account : Account.t) (jid : string) : jsval :=
  let normalizedJid := normalizeJid (JStr jid) in
  let phoneNumber := getPhoneFromJid (JStr jid) in
  let name := JNull in
  let contacts := Account.contacts account in
  let pushNames := Account.pushNames account in
  let contact :=
    match map_get normalizedJid contacts with
    | Some c => Some c
    | None => map_get (JStr jid) contacts
    end in
  let name :=
    match contact with
    | Some c => contact_display c
    | None => name
    end in
  let name :=
    if negb (truthy name) then scan_contacts contacts phoneNumber name
    else name in
  let name :=
    if negb (truthy name) then
      jsor (jsor (get_or_undef normalizedJid pushNames)
                 (get_or_undef (JStr jid) pushNames))
           (get_or_undef (JStr phoneNumber) pushNames)
    else name in
  let name :=
    if negb (truthy name) then
      match Account.sock account with
      | Some s =>
          match Sock.store_contacts s with
          | Some store =>
              match match object_get jid store with
                    | Some c => Some c
                    | None => object_get (property_key normalizedJid) store
                    end with
              | Some storeContact => contact_display storeContact
              | None => name
              end
          | None => name
          end
      | None => name
      end
    else name in
  name.

Definition getContactInfo (account : Account.t) (jid : string)
  : Info.t * Account.t :=
  let phoneNumber := getPhoneFromJid (JStr jid) in
  let contacts := Account.contacts account in
  let name := lookup_name account jid in
  let '(name, account) :=
    if negb (truthy name) then
      if endsWith jid "@g.us" then
        match match Account.sock account with
              | Some s => Sock.groupMetadata s jid
              | None => None
              end with
        | Some metadata =>
            let name := JStr (Sock.subject metadata) in
            (name,
             Account.set_contacts
               (map_set (JStr jid) (Contact.mk name name JUndef) contacts)
               account)
        | None => (JStr (before_char "@" jid), account)
        end
      else if endsWith jid "@lid" then
        (JStr ("Canal " ++ slice_last 6 (before_char "@" jid)), account)
      else if endsWith jid "@newsletter" then
        (JStr "Newsletter", account)
      else
        (JStr (format_number phoneNumber), account)
    else (name, account) in
  let '(profilePic, account) := getProfilePicture account jid in
  (Info.mk name profilePic, account).

(** The loop of [getFormattedChats]. *)
Fixpoint format_chats (account : Account.t) (chatArray : list Chat.t)
         (formatted : list FChat.t) : list FChat.t * Account.t :=
  match chatArray with
  | [] => (formatted, account)
  | chat :: rest =>
      if match Chat.lastMessage chat with
         | Some _ => false
         | None => true
         end && negb (num_truthy (Chat.conversationTimestamp chat))
      then format_chats account rest formatted
      else
        let '(contactInfo, account) := getContactInfo account (Chat.id chat) in
        format_chats account rest
          (formatted ++
           [FChat.mk (Chat.id chat) (Info.name contactInfo)
              (Info.profilePic contactInfo) (Chat.lastMessage chat)
              (num_or (Chat.timestamp chat) (Chat.conversationTimestamp chat))
              (num_or0 (Chat.unreadCount chat))])
  end.

(** [(a, b) => (b.timestamp || 0) - (a.timestamp || 0)] *)
Definition by_timestamp_desc (a b : FChat.t) : Z :=
  num_or0 (FChat.timestamp b) - num_or0 (FChat.timestamp a).

Definition getFormattedChats (account : Account.t)
  : list FChat.t * Account.t :=
  let chatArray := map_values (Account.chats account) in
  let '(formatted, account) := format_chats account chatArray [] in
  (array_slice_to 50 (array_sort by_timestamp_desc formatted), account).

Definition updateChatInList (account : Account.t) (jid : string) (msg : Msg.t)
  : Account.t * list Emission :=
  let existing :=
    match map_get (JStr jid) (Account.chats account) with
    | Some c => c
    | None => Chat.mk jid JUndef None None None (Some 0)
    end in
  let lastMessage := Some (formatMessage msg false) in
  let timestamp := Some (Msg.messageTimestamp msg) in
  let unreadCount :=
    if negb (Msg.fromMe (Msg.key msg))
    then Some (num_or0 (Chat.unreadCount existing) + 1)
    else Chat.unreadCount existing in
  let existing :=
    Chat.mk (Chat.id existing) (Chat.name existing) lastMessage timestamp
      (Chat.conversationTimestamp existing) unreadCount in
  let account :=
    Account.set_chats (map_set (JStr jid) existing (Account.chats account)) account in
  let '(chats, account) := getFormattedChats account in
  (account, [io_emit (chats_update (Account.id account) chats)]).

(** *** Gateway events (the handlers installed by [connectAccount]) *)

(** The projection broadcast that ends a handler. *)
Definition broadcast_chats (account : Account.t) : Account.t * list Emission :=
  let '(chats, account) := getFormattedChats account in
  (account, [io_emit (chats_update (Account.id account) chats)]).

Definition broadcast_chats_if_connected (account : Account.t)
  : Account.t * list Emission :=
  if ConnState_eqb (Account.connectionState account) connected
  then broadcast_chats account
  else (account, []).

(** One iteration of the loop of [contacts.upsert]. *)
Definition contacts_upsert_one (account : Account.t) (contact : WAContact.t)
  : Account.t :=
  let name :=
    jsor (jsor (WAContact.name contact) (WAContact.notify contact))
         (WAContact.verifiedName contact) in
  let normalizedId := normalizeJid (JStr (WAContact.id contact)) in
  let phoneNumber := getPhoneFromJid (JStr (WAContact.id contact)) in
  let contactData :=
    Contact.mk (or_null name) (WAContact.notify contact)
      (WAContact.verifiedName contact) in
  if truthy name then
    let account :=
      Account.set_contacts
        (map_set normalizedId contactData
           (map_set (JStr (WAContact.id contact)) contactData
              (Account.contacts account))) account in
    Account.set_pushNames
      (map_set (JStr phoneNumber) name
         (map_set normalizedId name (Account.pushNames account))) account
  else account.

Definition on_contacts_upsert (account : Account.t) (newContacts : list WAContact.t)
  : Account.t * list Emission :=
  broadcast_chats_if_connected (fold_left contacts_upsert_one newContacts account).

(** One iteration of the loop of [contacts.update]. *)
Definition contacts_update_one (account : Account.t) (update : WAContact.t)
  : Account.t :=
  let existing :=
    match map_get (JStr (WAContact.id update)) (Account.contacts account) with
    | Some c => c
    | None => Contact.empty
    end in
  let name :=
    jsor (jsor (WAContact.name update) (WAContact.notify update))
         (Contact.name existing) in
  if truthy name then
    Account.set_contacts
      (map_set (JStr (WAContact.id update))
         (Contact.mk name
            (jsor (WAContact.notify update) (Contact.notify existing))
            (Contact.verifiedName existing))
         (Account.contacts account)) account
  else account.

Definition on_contacts_update (account : Account.t) (updates : list WAContact.t)
  : Account.t * list Emission :=
  broadcast_chats_if_connected (fold_left contacts_update_one updates account).

(** The deduplicating append both [messages.upsert] and
    [messaging-history.set] perform. *)
Definition store_message (account : Account.t) (jid : string) (msg : Msg.t)
  : Account.t :=
  let messages := Account.messages account in
  let messages :=
    if negb (map_has (JStr jid) messages) then map_set (JStr jid) [] messages
    else messages in
  let existing :=
    match map_get (JStr jid) messages with
    | Some l => l
    | None => []
    end in
  let messages :=
    if negb (existsb (fun m => (Msg.id (Msg.key m) =? Msg.id (Msg.key msg))%string)
               existing)
    then map_set (JStr jid) (existing ++ [msg]) messages
    else messages in
  Account.set_messages messages account.

(** One iteration of the loop of [messages.upsert]. *)
Definition messages_upsert_one (type : UpsertType)
           (st : Account.t * list Emission) (msg : Msg.t)
  : Account.t * list Emission :=
  let '(account, log) := st in
  let jid := Msg.remoteJid (Msg.key msg) in
  let account :=
    if truthy (Msg.pushName msg) && negb (Msg.fromMe (Msg.key msg)) then
      let normalizedJid := normalizeJid (JStr jid) in
      let phoneNumber := getPhoneFromJid (JStr jid) in
      let account :=
        Account.set_pushNames
          (map_set (JStr phoneNumber) (Msg.pushName msg)
             (map_set normalizedJid (Msg.pushName msg) (Account.pushNames account)))
          account in
      if negb (map_has normalizedJid (Account.contacts account)) then
        Account.set_contacts
          (map_set normalizedJid
             (Contact.mk (Msg.pushName msg) (Msg.pushName msg) JUndef)
             (Account.contacts account)) account
      else account
    else account in
  let account := store_message account jid msg in
  if negb (Msg.fromMe (Msg.key msg))
     && match type with notify => true | append => false end
  then
    let '(contactInfo, account) := getContactInfo account jid in
    let notification :=
      io_emit (new_message (Account.id account) jid (formatMessage msg true)
                 (Info.name contactInfo) (Info.profilePic contactInfo)) in
    let '(account, emitted) := updateChatInList account jid msg in
    (account, log ++ [notification] ++ emitted)
  else (account, log).

Definition on_messages_upsert (account : Account.t) (newMessages : list Msg.t)
           (type : UpsertType) : Account.t * list Emission :=
  fold_left (messages_upsert_one type) newMessages (account, []).

Definition on_chats_upsert (account : Account.t) (newChats : list Chat.t)
  : Account.t * list Emission :=
  broadcast_chats
    (fold_left
       (fun account chat =>
          Account.set_chats
            (map_set (JStr (Chat.id chat)) chat (Account.chats account)) account)
       newChats account).

Definition assign {T : Type} (old : T) (new : option T) : T :=
  match new with
  | Some v => v
  | None => old
  end.

(** [Object.assign(chat, update)] *)
Definition chat_assign (chat : Chat.t) (update : ChatUpdate.t) : Chat.t :=
  Chat.mk (ChatUpdate.id update)
    (assign (Chat.name chat) (ChatUpdate.name update))
    (assign (Chat.lastMessage chat) (ChatUpdate.lastMessage update))
    (assign (Chat.timestamp chat) (ChatUpdate.timestamp update))
    (assign (Chat.conversationTimestamp chat) (ChatUpdate.conversationTimestamp update))
    (assign (Chat.unreadCount chat) (ChatUpdate.unreadCount update)).

Definition on_chats_update (account : Account.t) (updates : list ChatUpdate.t)
  : Account.t * list Emission :=
  broadcast_chats
    (fold_left
       (fun account update =>
          match map_get (JStr (ChatUpdate.id update)) (Account.chats account) with
          | Some chat =>
              Account.set_chats
                (map_set (JStr (ChatUpdate.id update)) (chat_assign chat update)
                   (Account.chats account)) account
          | None => account
          end)
       updates account).

(** The first loop of [messaging-history.set]. *)
Definition history_chat_one (account : Account.t) (chat : Chat.t) : Account.t :=
  let account :=
    Account.set_chats (map_set (JStr (Chat.id chat)) chat (Account.chats account))
      account in
  if truthy (Chat.name chat) then
    let normalizedJid := normalizeJid (JStr (Chat.id chat)) in
    let phoneNumber := getPhoneFromJid (JStr (Chat.id chat)) in
    let data := Contact.mk (Chat.name chat) (Chat.name chat) JUndef in
    let account :=
      Account.set_contacts
        (map_set normalizedJid data
           (map_set (JStr (Chat.id chat)) data (Account.contacts account))) account in
    Account.set_pushNames
      (map_set (JStr phoneNumber) (Chat.name chat)
         (map_set normalizedJid (Chat.name chat) (Account.pushNames account))) account
  else account.

(** The second loop of [messaging-history.set]. *)
Definition history_message_one (account : Account.t) (msg : Msg.t) : Account.t :=
  let jid := Msg.remoteJid (Msg.key msg) in
  let account :=
    if truthy (Msg.pushName msg) then
      let normalizedJid := normalizeJid (JStr jid) in
      let phoneNumber := getPhoneFromJid (JStr jid) in
      if negb (Msg.fromMe (Msg.key msg)) then
        let account :=
          Account.set_pushNames
            (map_set (JStr jid) (Msg.pushName msg)
               (map_set (JStr phoneNumber) (Msg.pushName msg)
                  (map_set normalizedJid (Msg.pushName msg)
                     (Account.pushNames account)))) account in
        if negb (map_has normalizedJid (Account.contacts account))
           || negb (truthy (match map_get normalizedJid (Account.contacts account) with
                            | Some c => Contact.name c
                            | None => JUndef
                            end))
        then
          let data := Contact.mk (Msg.pushName msg) (Msg.pushName msg) JUndef in
          Account.set_contacts
            (map_set (JStr jid) data
               (map_set normalizedJid data (Account.contacts account))) account
        else account
      else account
    else account in
  store_message account jid msg.

Definition on_messaging_history_set (account : Account.t)
           (syncedChats : list Chat.t) (syncedMessages : list Msg.t)
  : Account.t * list Emission :=
  let account := fold_left history_chat_one syncedChats account in
  let account := fold_left history_message_one syncedMessages account in
  broadcast_chats account.

(** *** Registry *)

Definition getAccountsList (w : World.t) : list Account.json :=
  map Account.toJSON (World.values w).

Definition saveAccountsToFile (w : World.t) : World.t :=
  World.set_accounts_file
    (Some (map (fun acc => Saved.mk (Account.id acc) (Account.name acc)
                             (Account.phoneNumber acc)) (World.values w))) w.

(** [DisconnectReason.loggedOut], a constant of the gateway library. *)
Variable loggedOut : Z.

(** [QRCode.toDataURL] *)
Variable toDataURL : string -> string.

Definition loadChatsForAccount (account : Account.t) : Account.t * list Emission :=
  match Account.sock account with
  | Some s =>
      if Sock.groupFetchAllParticipating s then broadcast_chats account
      else (account, [])
  | None => (account, [])
  end.

(** The [connection.update] handler of the account object at [r], whose
    closure holds the session [sock]. *)
Definition on_connection_update (sock : Sock.t) (r : nat) (update : ConnUpdate.t)
           (w : World.t) : World.t * list Emission :=
  match World.deref r w with
  | None => (w, [])
  | Some account =>
      let '(account, log) :=
        if truthy (ConnUpdate.qr update) then
          let data := toDataURL (str_of (ConnUpdate.qr update)) in
          let account :=
            Account.set_connectionState qr
              (Account.set_qrCodeData (Some data) account) in
          (account,
           [io_emit (account_qr (Account.id account) data);
            io_emit (account_status (Account.id account) qr "Escaneie o QR Code")])
        else (account, []) in
      let w := World.store r account w in
      match ConnUpdate.connection update with
      | Some conn_close =>
          let shouldReconnect :=
            match ConnUpdate.statusCode update with
            | Some code => negb (code =? loggedOut)
            | None => true
            end in
          let account := Account.set_connectionState disconnected account in
          let w := World.store r account w in
          let log :=
            log ++ [io_emit (account_status (Account.id account) disconnected "Desconectado");
                    io_emit (accounts_update (getAccountsList w))] in
          if shouldReconnect then (World.schedule_reconnect r w, log)
          else
            let w :=
              World.set_auth
                (Fs.mkdirSync (Account.authFolder account)
                   (Fs.rmSync (Account.authFolder account) (World.auth w))) w in
            let account := Account.set_phoneNumber JNull account in
            let w := World.store r account w in
            (saveAccountsToFile w, log)
      | Some conn_open =>
          let account :=
            Account.set_qrCodeData None
              (Account.set_connectionState connected account) in
          let w := World.store r account w in
          let '(account, w) :=
            if truthy (Sock.user_id sock) then
              let account :=
                Account.set_phoneNumber (JStr (getPhoneFromJid (Sock.user_id sock)))
                  account in
              (account, saveAccountsToFile (World.store r account w))
            else (account, w) in
          let log :=
            log ++ [io_emit (account_status (Account.id account) connected "Conectado!");
                    io_emit (accounts_update (getAccountsList w))] in
          let '(account, emitted) := loadChatsForAccount account in
          (World.store r account w, log ++ emitted)
      | _ => (w, log)
      end
  end.

(** *** Observer commands (the handlers of [io.on('connection')]) *)

(** [accounts.get(accountId)] *)
Definition find_account (accountId : string) (w : World.t) : option (nat * Account.t) :=
  match map_get (JStr accountId) (World.accounts w) with
  | Some r =>
      match World.deref r w with
      | Some account => Some (r, account)
      | None => None
      end
  | None => None
  end.

Definition not_connected : list Emission :=
  [socket_emit (error_ev "Conta não conectada")].

Definition on_logout_account (accountId : string) (w : World.t)
  : World.t * list Emission :=
  match find_account accountId w with
  | Some (r, account) =>
      match Account.sock account with
      | Some _ =>
          let account := Account.set_sock None account in
          let account := Account.set_connectionState disconnected account in
          let account := Account.set_chats (map_clear (Account.chats account)) account in
          let account := Account.set_messages (map_clear (Account.messages account)) account in
          let account := Account.set_contacts (map_clear (Account.contacts account)) account in
          let account := Account.set_profilePics (map_clear (Account.profilePics account)) account in
          let account := Account.set_phoneNumber JNull account in
          let w := World.store r account w in
          let w :=
            if Fs.existsSync (Account.authFolder account) (World.auth w) then
              World.set_auth
                (Fs.mkdirSync (Account.authFolder account)
                   (Fs.rmSync (Account.authFolder account) (World.auth w))) w
            else w in
          let w := saveAccountsToFile w in
          (w, [io_emit (accounts_update (getAccountsList w));
               io_emit (account_status accountId disconnected "Desconectado")])
      | None => (w, [])
      end
  | None => (w, [])
  end.

(** The unconditional push of [send-message]. *)
Definition record_sent (account : Account.t) (jid : string) (sent : Msg.t)
  : Account.t :=
  let messages := Account.messages account in
  let messages :=
    if negb (map_has (JStr jid) messages) then map_set (JStr jid) [] messages
    else messages in
  let log :=
    match map_get (JStr jid) messages with
    | Some l => l
    | None => []
    end in
  Account.set_messages (map_set (JStr jid) (log ++ [sent]) messages) account.

Definition on_send_message (accountId jid : string) (outcome : SendOutcome)
           (w : World.t) : World.t * list Emission :=
  match find_account accountId w with
  | Some (r, account) =>
      if ConnState_eqb (Account.connectionState account) connected then
        match outcome with
        | send_ok sent =>
            let account := record_sent account jid sent in
            let ack :=
              socket_emit (message_sent accountId jid (formatMessage sent false)) in
            let '(account, emitted) := updateChatInList account jid sent in
            (World.store r account w, ack :: emitted)
        | send_nothing => (w, [])
        | send_threw => (w, [socket_emit (error_ev "Erro ao enviar mensagem")])
        end
      else (w, not_connected)
  | None => (w, not_connected)
  end.

(** [(a, b) => a.timestamp - b.timestamp] *)
Definition by_timestamp_asc (a b : Formatted.t) : Z :=
  Formatted.timestamp a - Formatted.timestamp b.

Definition on_get_messages (accountId jid : string) (w : World.t)
  : World.t * list Emission :=
  match find_account accountId w with
  | Some (r, account) =>
      if ConnState_eqb (Account.connectionState account) connected then
        let storedMsgs :=
          match map_get (JStr jid) (Account.messages account) with
          | Some l => l
          | None => []
          end in
        let '(contactInfo, account) := getContactInfo account jid in
        let formattedMsgs := map (fun msg => formatMessage msg true) storedMsgs in
        let reply :=
          socket_emit
            (messages_ev accountId jid (Info.name contactInfo)
               (Info.profilePic contactInfo)
               (array_sort by_timestamp_asc formattedMsgs)) in
        let account :=
          match map_get (JStr jid) (Account.chats account) with
          | Some chat =>
              let chat :=
                Chat.mk (Chat.id chat) (Chat.name chat) (Chat.lastMessage chat)
                  (Chat.timestamp chat) (Chat.conversationTimestamp chat) (Some 0) in
              Account.set_chats (map_set (JStr jid) chat (Account.chats account)) account
          | None => account
          end in
        (World.store r account w, [reply])
      else (w, not_connected)
  | None => (w, not_connected)
  end.

(** The window of [get-history]: the stored messages of the last [days]
    days, the last [limit || 100] of them, formatted and sorted, and the
    number that passed the filter. *)
Definition history_window (storedMsgs : list Msg.t) (now days : Z) (limit : jsnum)
  : list Formatted.t * Z :=
  let startTime := now - days * 24 * 60 * 60 in
  let filteredMsgs :=
    filter (fun msg => Msg.messageTimestamp msg >=? startTime) storedMsgs in
  let limitedMsgs :=
    array_slice_from (- num_or0 (num_or limit (Some 100))) filteredMsgs in
  let formattedMsgs := map (fun msg => formatMessage msg false) limitedMsgs in
  (array_sort by_timestamp_asc formattedMsgs, Z.of_nat (List.length filteredMsgs)).

(** [now] is [Math.floor(Date.now() / 1000)]. *)
Definition on_get_history (accountId jid : string) (days : Z) (limit : jsnum)
           (now : Z) (w : World.t) : World.t * list Emission :=
  match find_account accountId w with
  | Some (r, account) =>
      if ConnState_eqb (Account.connectionState account) connected then
        let storedMsgs :=
          match map_get (JStr jid) (Account.messages account) with
          | Some l => l
          | None => []
          end in
        let '(messages, total) := history_window storedMsgs now days limit in
        (w, [socket_emit (history_ev accountId jid messages total)])
      else (w, not_connected)
  | None => (w, not_connected)
  end.


(** *** More of the registry *)

(** [AUTH_BASE_FOLDER], [UPLOADS_FOLDER] and [path.join]. *)
Variable AUTH_BASE_FOLDER : string.
Variable UPLOADS_FOLDER : string.
Variable path_join : string -> string -> string.

(** [new Account(id, name)] *)
Definition new_Account (id : string) (name : jsval) : Account.t :=
  Account.mk id (str_or name ("Conta " ++ id)) None disconnected None
    [] [] [] [] [] (path_join AUTH_BASE_FOLDER id) JNull.

(** The loop of [loadAccountsFromFile]. *)
Definition load_one (w : World.t) (acc : Saved.t) : World.t :=
  let account := new_Account (Saved.id acc) (JStr (Saved.name acc)) in
  let account := Account.set_phoneNumber (Saved.phoneNumber acc) account in
  let '(r, w) := world_alloc account w in
  world_set_accounts (map_set (JStr (Saved.id acc)) r (World.accounts w)) w.

Definition loadAccountsFromFile (w : World.t) : World.t :=
  match World.accounts_file w with
  | Some data => fold_left load_one data w
  | None => w
  end.

(** [id] is what [generateAccountId()] returned. *)
Definition on_create_account (id : string) (name : jsval) (w : World.t)
  : World.t * list Reply :=
  let account := new_Account id name in
  let '(r, w) := world_alloc account w in
  let w := world_set_accounts (map_set (JStr id) r (World.accounts w)) w in
  let w := saveAccountsToFile w in
  (w, [account_created id name;
       notice (io_emit (accounts_update (getAccountsList w)))]).

Definition on_rename_account (accountId name : string) (w : World.t)
  : World.t * list Emission :=
  match find_account accountId w with
  | Some (r, account) =>
      let w := World.store r (account_set_name name account) w in
      let w := saveAccountsToFile w in
      (w, [io_emit (accounts_update (getAccountsList w))])
  | None => (w, [])
  end.

Definition on_delete_account (accountId : string) (w : World.t)
  : World.t * list Emission :=
  match find_account accountId w with
  | Some (r, account) =>
      let account :=
        match Account.sock account with
        | Some _ => Account.set_sock None account
        | None => account
        end in
      let w := World.store r account w in
      let w :=
        if Fs.existsSync (Account.authFolder account) (World.auth w)
        then World.set_auth (Fs.rmSync (Account.authFolder account) (World.auth w)) w
        else w in
      let w := world_set_accounts (map_delete (JStr accountId) (World.accounts w)) w in
      let w := saveAccountsToFile w in
      (w, [io_emit (accounts_update (getAccountsList w))])
  | None => (w, [])
  end.

(** What [connectAccount] does to the process state: the credential
    folder exists and the account holds the new session [session]. *)
Definition connectAccount (session : Sock.t) (r : nat) (w : World.t) : World.t :=
  match World.deref r w with
  | Some account =>
      let w :=
        if negb (Fs.existsSync (Account.authFolder account) (World.auth w))
        then World.set_auth (Fs.mkdirSync (Account.authFolder account) (World.auth w)) w
        else w in
      World.store r (Account.set_sock (Some session) account) w
  | None => w
  end.

(** [session] is the session [makeWASocket] would create. *)
Definition on_connect_account (accountId : string) (session : Sock.t) (w : World.t)
  : World.t * list Emission :=
  match find_account accountId w with
  | None => (w, [socket_emit (error_ev "Conta não encontrada")])
  | Some (r, account) =>
      if ConnState_eqb (Account.connectionState account) connected then
        let '(chats, account) := getFormattedChats account in
        (World.store r account w,
         [socket_emit (account_status accountId connected "Já conectado!");
          socket_emit (chats_update accountId chats)])
      else if match Account.sock account with
              | Some _ => false
              | None => true
              end
              || ConnState_eqb (Account.connectionState account) disconnected
      then (connectAccount session r w, [])
      else (w, [])
  end.

Definition status_message (state : ConnState) : string :=
  match state with
  | connected => "Conectado!"
  | qr => "Escaneie o QR Code"
  | disconnected => "Desconectado"
  end.

Definition on_get_account_state (accountId : string) (w : World.t)
  : World.t * list Emission :=
  match find_account accountId w with
  | None => (w, [socket_emit (error_ev "Conta não encontrada")])
  | Some (r, account) =>
      let log :=
        [socket_emit (account_status accountId (Account.connectionState account)
                        (status_message (Account.connectionState account)))] in
      let log :=
        match Account.qrCodeData account with
        | Some data =>
            if negb (data =? "")%string
            then log ++ [socket_emit (account_qr accountId data)]
            else log
        | None => log
        end in
      if ConnState_eqb (Account.connectionState account) connected then
        let '(chats, account) := getFormattedChats account in
        (World.store r account w, log ++ [socket_emit (chats_update accountId chats)])
      else (w, log)
  end.

(** The number [start-new-chat] asks the gateway about. *)
Definition dial_number (phoneNumber : string) : string :=
  let number := only_digits phoneNumber in
  if negb (startsWith number "55") && (String.length number <=? 11)%nat
  then "55" ++ number
  else number.

(** [onWhatsApp] is [account.sock.onWhatsApp]; [None] is a rejection. *)
Definition on_start_new_chat (accountId phoneNumber : string)
           (onWhatsApp : string -> option (list OnWhatsApp.t)) (w : World.t)
  : World.t * list Reply :=
  let failed message := [notice (socket_emit (error_ev message))] in
  match find_account accountId w with
  | None => (w, failed "Conta não conectada")
  | Some (r, account) =>
      if negb (ConnState_eqb (Account.connectionState account) connected)
      then (w, failed "Conta não conectada")
      else
        let number := dial_number phoneNumber in
        match match Account.sock account with
              | Some _ => onWhatsApp number
              | None => None
              end with
        | None => (w, failed "Erro ao verificar número")
        | Some results =>
            match results with
            | result :: _ =>
                if OnWhatsApp.found result then
                  let jid := OnWhatsApp.jid result in
                  let '(contactInfo, account) := getContactInfo account jid in
                  (World.store r account w,
                   [new_chat_ready accountId jid (Info.name contactInfo)
                      (Info.profilePic contactInfo)])
                else (w, failed "Número não encontrado no WhatsApp")
            | [] => (w, failed "Número não encontrado no WhatsApp")
            end
        end
  end.

(** *** The voice-note transcoder *)

(** The extension [convertAudioToOgg] gives its input file. *)
Definition inputExt (inputMimetype : string) : string :=
  if includes_str "mp4" inputMimetype then "mp4"
  else if includes_str "webm" inputMimetype then "webm"
  else if includes_str "ogg" inputMimetype then "ogg"
  else "webm".

(** [t_in] and [t_out] are the two readings of [Date.now()]; the result
    is what the promise resolves to, [None] when it rejects. *)
Definition convertAudioToOgg (inputBuffer inputMimetype : string)
           (t_in t_out : string) (run : Encoder) (files : Files.t)
  : option string * Files.t :=
  let inputPath :=
    path_join UPLOADS_FOLDER ("input_" ++ t_in ++ "." ++ inputExt inputMimetype) in
  let outputPath := path_join UPLOADS_FOLDER ("output_" ++ t_out ++ ".ogg") in
  let files := Files.writeFileSync inputPath inputBuffer files in
  match run with
  | encoder_end output =>
      let files := Files.writeFileSync outputPath output files in
      let outputBuffer := Files.readFileSync outputPath files in
      let files := Files.unlinkSync outputPath (Files.unlinkSync inputPath files) in
      (outputBuffer, files)
  | encoder_error partial =>
      let files :=
        match partial with
        | Some bytes => Files.writeFileSync outputPath bytes files
        | None => files
        end in
      let files := Files.unlinkSync outputPath (Files.unlinkSync inputPath files) in
      (None, files)
  end.

End Server.

(** ** Predicates used in the statements *)

Fixpoint all_digits (s : string) : bool :=
  match s with
  | EmptyString => true
  | String c r => is_digit c && all_digits r
  end.

(** [s] holds no match of [/:[\d]+@/]: at no position a [":"], one or
    more digits and an ["@"]. *)
Definition device_free (s : string) : Prop :=
  forall a d b, d <> "" -> all_digits d = true ->
                s <> (a ++ String ":" (d ++ String "@" b))%string.

(** [s] has no occurrence of [c]. *)
Definition lacks (c : ascii) (s : string) : Prop := includes_char c s = false.

(** ** Name resolution as the specification words it

    The candidates of [resolveName], in the order the specification
    lists them; the resolved name is the first that is truthy, and the
    last stage always answers. *)

Definition first_truthy (candidates : list jsval) (last : jsval) : jsval :=
  match find truthy candidates with
  | Some v => v
  | None => last
  end.

(** 1. exact match on the canonical id, else the raw id *)
Definition exact_match (account : Account.t) (jid : string) : jsval :=
  match map_get (normalizeJid (JStr jid)) (Account.contacts account) with
  | Some c => contact_display c
  | None =>
      match map_get (JStr jid) (Account.contacts account) with
      | Some c => contact_display c
      | None => JNull
      end
  end.

(** 2. the first name among the stored keys with the target's phone number *)
Definition phone_scan (account : Account.t) (jid : string) : jsval :=
  match find (fun e => (getPhoneFromJid (fst e) =? getPhoneFromJid (JStr jid))%string
                       && truthy (contact_display (snd e)))
             (Account.contacts account) with
  | Some e => contact_display (snd e)
  | None => JUndef
  end.

(** 3. the push-name table by canonical id, raw id, then phone number *)
Definition push_name (account : Account.t) (jid : string) : jsval :=
  first_truthy
    [get_or_undef (normalizeJid (JStr jid)) (Account.pushNames account);
     get_or_undef (JStr jid) (Account.pushNames account)]
    (get_or_undef (JStr (getPhoneFromJid (JStr jid))) (Account.pushNames account)).

(** The session's own contact store, when the session carries one. *)
Definition session_store_name (account : Account.t) (jid : string) : jsval :=
  match Account.sock account with
  | Some s =>
      match Sock.store_contacts s with
      | Some store =>
          match object_get jid store with
          | Some c => contact_display c
          | None =>
              match object_get (property_key (normalizeJid (JStr jid))) store with
              | Some c => contact_display c
              | None => JUndef
              end
          end
      | None => JUndef
      end
  | None => JUndef
  end.

(** 4. the subject a live group-metadata lookup answers *)
Definition group_lookup (account : Account.t) (jid : string) : option string :=
  if endsWith jid "@g.us" then
    match Account.sock account with
    | Some s =>
        match Sock.groupMetadata s jid with
        | Some metadata => Some (Sock.subject metadata)
        | None => None
        end
    | None => None
    end
  else None.

(** 5. the synthesized label *)
Definition fallback_label (jid : string) : string :=
  if endsWith jid "@g.us" then before_char "@" jid
  else if endsWith jid "@lid" then "Canal " ++ slice_last 6 (before_char "@" jid)
  else if endsWith jid "@newsletter" then "Newsletter"
  else format_number (getPhoneFromJid (JStr jid)).

Definition stored_candidates (account : Account.t) (jid : string) : list jsval :=
  [exact_match account jid; phone_scan account jid; push_name account jid;
   session_store_name account jid].

Definition resolveName_spec (account : Account.t) (jid : string) : jsval :=
  first_truthy (stored_candidates account jid)
    (match group_lookup account jid with
     | Some subject => JStr subject
     | None => JStr (fallback_label jid)
     end).

(** No stage before the synthesized label yields a name. *)
Definition unnamed (account : Account.t) (jid : string) : Prop :=
  find truthy (stored_candidates account jid) = None.

(** Neither a group, a channel nor a newsletter. *)
Definition ordinary (jid : string) : Prop :=
  endsWith jid "@g.us" = false /\ endsWith jid "@lid" = false
  /\ endsWith jid "@newsletter" = false.

(** What [getContactInfo] resolves. *)
Definition resolveName (account : Account.t) (jid : string) : jsval :=
  Info.name (fst (getContactInfo account jid)).

(** [a'] differs from [a] at most in the directory and the picture cache. *)
Definition only_caches (a a' : Account.t) : Prop :=
  Account.id a' = Account.id a
  /\ Account.name a' = Account.name a
  /\ Account.sock a' = Account.sock a
  /\ Account.connectionState a' = Account.connectionState a
  /\ Account.chats a' = Account.chats a
  /\ Account.messages a' = Account.messages a
  /\ Account.pushNames a' = Account.pushNames a
  /\ Account.authFolder a' = Account.authFolder a
  /\ Account.phoneNumber a' = Account.phoneNumber a.

(** ** The chat-list projection as the specification words it *)

(** A chat has activity: a last-message projection or a recorded activity
    timestamp. *)
Definition has_activity (chat : Chat.t) : bool :=
  match Chat.lastMessage chat with
  | Some _ => true
  | None => num_truthy (Chat.conversationTimestamp chat)
  end.

(** The timestamp an entry is ordered by. *)
Definition sort_key (e : FChat.t) : Z := num_or0 (FChat.timestamp e).

(** [a] is listed before [b]: non-increasing timestamps. *)
Definition not_older (a b : FChat.t) : Prop := sort_key b <= sort_key a.

(** Entry [e] is chat [chat] annotated with the name and avatar
    [getContactInfo] resolves for it in the state [account]. *)
Definition annotates (account : Account.t) (chat : Chat.t) (e : FChat.t) : Prop :=
  FChat.id e = Chat.id chat
  /\ FChat.lastMessage e = Chat.lastMessage chat
  /\ FChat.timestamp e = num_or (Chat.timestamp chat) (Chat.conversationTimestamp chat)
  /\ FChat.unreadCount e = num_or0 (Chat.unreadCount chat)
  /\ FChat.name e = Info.name (fst (getContactInfo account (Chat.id chat)))
  /\ FChat.profilePic e = Info.profilePic (fst (getContactInfo account (Chat.id chat))).

(** The entries annotate the chats one by one, each in the state the
    resolutions before it left: the first in [account], the next in the
    state [getContactInfo] returned for the first, and so on. *)
Fixpoint annotated_from (account : Account.t) (chats : list Chat.t)
         (entries : list FChat.t) : Prop :=
  match chats, entries with
  | [], [] => True
  | chat :: chats', e :: entries' =>
      annotates account chat e
      /\ annotated_from (snd (getContactInfo account (Chat.id chat))) chats' entries'
  | _, _ => False
  end.

(** ** The history window as the specification words it *)

(** The last [n] entries of a log, in log order. *)
Definition last_n {A : Type} (n : nat) (l : list A) : list A :=
  skipn (List.length l - n) l.

(** The messages of a log with timestamp at least [sinceEpoch]. *)
Definition since (sinceEpoch : Z) (log : list Msg.t) : list Msg.t :=
  filter (fun msg => sinceEpoch <=? Msg.messageTimestamp msg) log.

(** The window size [get-history] uses for a requested [limit]. *)
Definition window_size (limit : jsnum) : Z :=
  match limit with
  | Some 0 | None => 100
  | Some n => n
  end.

(** Ascending timestamps. *)
Definition not_later (a b : Formatted.t) : Prop :=
  Formatted.timestamp a <= Formatted.timestamp b.

(** The messages of a log are stored in ascending timestamp order. *)
Definition in_time_order (log : list Msg.t) : Prop :=
  StronglySorted (fun a b => Msg.messageTimestamp a <= Msg.messageTimestamp b) log.

(** No message of [older] is more recent than a message of [window]. *)
Definition none_newer (older window : list Msg.t) : Prop :=
  forall o w, In o older -> In w window ->
              Msg.messageTimestamp o <= Msg.messageTimestamp w.

(** ** The message store as the specification words it *)

(** The log of a chat, empty when the chat has none. *)
Definition chat_log (account : Account.t) (jid : string) : list Msg.t :=
  match map_get (JStr jid) (Account.messages account) with
  | Some l => l
  | None => []
  end.

(** A message with the id of [msg] is in the log. *)
Definition logged (msg : Msg.t) (log : list Msg.t) : bool :=
  existsb (fun m => (Msg.id (Msg.key m) =? Msg.id (Msg.key msg))%string) log.

(** A batch delivered live. *)
Definition is_notify (type : UpsertType) : bool :=
  match type with
  | notify => true
  | append => false
  end.

(** ** Reading a chat *)

(** [chat] with its unread counter reset. *)
Definition mark_read (chat : Chat.t) : Chat.t :=
  Chat.mk (Chat.id chat) (Chat.name chat) (Chat.lastMessage chat)
    (Chat.timestamp chat) (Chat.conversationTimestamp chat) (Some 0).

(** ** Sample states *)

Definition no_media : Msg.t -> option string := fun _ => None.

Definition sample_sock : Sock.t :=
  Sock.mk (JStr "5511888887777:3@s.whatsapp.net") (fun _ => None) (fun _ => None)
    true None.

Definition text_message (jid id : string) (fromMe : bool) (body : string)
           (timestamp : Z) (pushName : jsval) : Msg.t :=
  Msg.mk (Msg.mkKey jid id fromMe)
    (Some (Content.mk (JStr body) None None None None None false))
    timestamp pushName.

Definition ana_jid : string := "5511999990000@s.whatsapp.net".

(** A connected account with empty stores. *)
Definition sample_account : Account.t :=
  Account.mk "acc_1" "Conta acc_1" (Some sample_sock) connected None
    [] [] [] [] [] "auth/acc_1" (JStr "5511888887777").

Definition sample_chat : Chat.t :=
  Chat.mk ana_jid JUndef None None (Some 1700000000) (Some 3).

Definition inbound_1 : Msg.t :=
  text_message ana_jid "3EB0A1" false "oi" 1700000000 (JStr "Ana").

Definition inbound_2 : Msg.t :=
  text_message ana_jid "3EB0A2" false "tudo bem?" 1700000005 (JStr "Ana").

Definition outbound_1 : Msg.t :=
  text_message ana_jid "3EB0B1" true "tudo" 1700000010 JUndef.

(** A connected account with one chat, one message, one contact and one
    cached picture. *)
Definition busy_account : Account.t :=
  Account.mk "acc_1" "Conta acc_1" (Some sample_sock) connected None
    [(JStr ana_jid, sample_chat)]
    [(JStr ana_jid, [inbound_1])]
    [(JStr ana_jid, Contact.mk (JStr "Ana") (JStr "Ana") JUndef)]
    [(JStr ana_jid, JNull)]
    [(JStr ana_jid, JStr "Ana")]
    "auth/acc_1" (JStr "5511888887777").

(** The process holding one registered account with stored credentials. *)
Definition sample_world (account : Account.t) : World.t :=
  World.mk [account] [(JStr "acc_1", 0%nat)] [("auth/acc_1", ["creds.json"])]
    (Some [Saved.mk "acc_1" "Conta acc_1" (JStr "5511888887777")]) [].

Definition logged_out_close (loggedOut : Z) : ConnUpdate.t :=
  ConnUpdate.mk (Some conn_close) (Some loggedOut) JUndef.

Definition alice : WAContact.t := WAContact.mk ana_jid (JStr "Alice") JUndef JUndef.

(** A later partial update that carries a notify name only. *)
Definition bob_notify : WAContact.t := WAContact.mk ana_jid JUndef (JStr "Bob") JUndef.

Definition ana : WAContact.t := WAContact.mk "5511999@x" JUndef (JStr "Ana") JUndef.

Definition idle_account : Account.t :=
  Account.set_connectionState disconnected busy_account.

Definition sample_now : Z := 1700000000.

Definition message_now : Msg.t :=
  text_message ana_jid "3EB0C1" false "agora" sample_now JUndef.

Definition message_two_days_ago : Msg.t :=
  text_message ana_jid "3EB0C0" false "anteontem" (sample_now - 2 * 24 * 60 * 60) JUndef.

(** ** The chat store read by chat id *)

(** The unread counter of a chat, 0 for a chat the store does not hold. *)
Definition unread (account : Account.t) (jid : string) : Z :=
  match map_get (JStr jid) (Account.chats account) with
  | Some chat => num_or0 (Chat.unreadCount chat)
  | None => 0
  end.

(** The identifiers a map holds, in insertion order. *)
Definition map_keys {V : Type} (m : jsmap V) : list jsval := map fst m.

(** ** The registry across a restart *)

(** The record [saveAccountsToFile] writes for an account. *)
Definition saved_of (a : Account.t) : Saved.t :=
  Saved.mk (Account.id a) (Account.name a) (Account.phoneNumber a).

(** The account a restarted process builds from that record: its id and
    phone number, its name unless that is empty, no session, no stores. *)
Definition restart_of (AUTH_BASE_FOLDER : string)
           (path_join : string -> string -> string) (a : Account.t) : Account.t :=
  Account.mk (Account.id a)
    (if (Account.name a =? "")%string then "Conta " ++ Account.id a else Account.name a)
    None disconnected None [] [] [] [] []
    (path_join AUTH_BASE_FOLDER (Account.id a)) (Account.phoneNumber a).

(** A process that has just started: no account object, an empty
    registry, and what is on disk. *)
Definition fresh_process (auth : Fs.t) (file : option (list Saved.t)) : World.t :=
  World.mk [] [] auth file [].

(** The registry maps the id of the [i]-th account object to [i]. *)
Definition registry_of (heap : list Account.t) : jsmap nat :=
  combine (map (fun a => JStr (Account.id a)) heap) (seq 0 (List.length heap)).

(** ** Message logs across a batch *)

(** No two messages of a log share an id. *)
Definition distinct_ids (log : list Msg.t) : Prop :=
  NoDup (map (fun m => Msg.id (Msg.key m)) log).

(** Every chat log of [a'] is the log [a] holds for the chat, followed by
    further messages. *)
Definition extends_logs (a a' : Account.t) : Prop :=
  forall jid, exists suffix, chat_log a' jid = chat_log a jid ++ suffix.

(** Sent to the requesting observer only. *)
Definition to_requester (e : Emission) : bool :=
  match e with
  | socket_emit _ => true
  | io_emit _ => false
  end.

(** ** More sample states *)

Definition unknown_chat_update : ChatUpdate.t :=
  ChatUpdate.mk "5511000000000@s.whatsapp.net" None None None None (Some (Some 5)).

Definition identity_url (qr : string) : string := qr.

Definition knows_ana (number : string) : option (list OnWhatsApp.t) :=
  Some [OnWhatsApp.mk true ana_jid].

Definition join_slash (a b : string) : string := (a ++ "/" ++ b)%string.

(** * Properties *)

(** ** Strings *)

Lemma append_nil_r (s : string) : (s ++ "")%string = s.
Proof. induction s as [|c s IH]; simpl; [reflexivity | now rewrite IH]. Qed.

Lemma append_assoc (a b c : string) : ((a ++ b) ++ c)%string = (a ++ (b ++ c))%string.
Proof. induction a as [|x a IH]; simpl; [reflexivity | now rewrite IH]. Qed.

Lemma length_append (a b : string) :
  String.length (a ++ b) = (String.length a + String.length b)%nat.
Proof. induction a as [|x a IH]; simpl; [reflexivity | now rewrite IH]. Qed.

Lemma lacks_cons c d s : lacks c (String d s) <-> Ascii.eqb c d = false /\ lacks c s.
Proof. unfold lacks; simpl. apply orb_false_iff. Qed.

Lemma includes_append c a b :
  includes_char c (a ++ b) = includes_char c a || includes_char c b.
Proof.
  induction a as [|x a IH]; simpl; [reflexivity|].
  now rewrite IH, orb_assoc.
Qed.

Lemma before_char_lacks c s : lacks c s -> before_char c s = s.
Proof.
  induction s as [|d s IH]; intros H; simpl; [reflexivity|].
  apply lacks_cons in H as [Hd Hs]. rewrite Hd. now rewrite IH.
Qed.

Lemma before_char_found c p rest :
  lacks c p -> before_char c (p ++ String c rest) = p.
Proof.
  induction p as [|d p IH]; intros H; simpl.
  - now rewrite Ascii.eqb_refl.
  - apply lacks_cons in H as [Hd Hp]. rewrite Hd. now rewrite IH.
Qed.

Lemma before_char_append c p q :
  lacks c p -> before_char c (p ++ q) = (p ++ before_char c q)%string.
Proof.
  induction p as [|d p IH]; intros H; simpl; [reflexivity|].
  apply lacks_cons in H as [Hd Hp]. rewrite Hd. now rewrite IH.
Qed.

Lemma before_char_is_free c s : lacks c (before_char c s).
Proof.
  induction s as [|d s IH]; simpl; [reflexivity|].
  destruct (Ascii.eqb c d) eqn:E; [reflexivity|].
  apply lacks_cons. now split.
Qed.

Lemma before_char_keeps_free c d s : lacks d s -> lacks d (before_char c s).
Proof.
  induction s as [|x s IH]; intros H; simpl; [reflexivity|].
  apply lacks_cons in H as [Hx Hs].
  destruct (Ascii.eqb c x); [reflexivity|].
  apply lacks_cons. split; [assumption | now apply IH].
Qed.

Lemma at_is_no_digit : is_digit "@" = false.
Proof. reflexivity. Qed.

Lemma skip_digits_run d rest :
  all_digits d = true -> skip_digits (d ++ String "@" rest) = String "@" rest.
Proof.
  induction d as [|c d IH]; intros H; simpl.
  - reflexivity.
  - simpl in H. apply andb_true_iff in H as [Hc Hd]. rewrite Hc. now apply IH.
Qed.

Lemma match_device_run d rest :
  d <> "" -> all_digits d = true -> match_device (d ++ String "@" rest) = Some rest.
Proof.
  destruct d as [|c d]; intros Hne H; [congruence|].
  simpl in *. apply andb_true_iff in H as [Hc Hd].
  rewrite Hc. now rewrite skip_digits_run.
Qed.

Lemma skip_digits_lacks c s : lacks c s -> lacks c (skip_digits s).
Proof.
  induction s as [|x s IH]; intros H; simpl; [assumption|].
  destruct (is_digit x); [|assumption].
  apply lacks_cons in H as [_ Hs]. now apply IH.
Qed.

Lemma match_device_needs_at s : lacks "@" s -> match_device s = None.
Proof.
  intros H. destruct s as [|c s]; simpl; [reflexivity|].
  destruct (is_digit c); [|reflexivity].
  apply lacks_cons in H as [_ Hs].
  pose proof (skip_digits_lacks "@" s Hs) as Hk.
  destruct (skip_digits s) as [|x k]; [reflexivity|].
  apply lacks_cons in Hk as [Hx _].
  destruct (Ascii.eqb_spec "@" x) as [<-|Hne]; [discriminate|].
  destruct x as [[] [] [] [] [] [] [] []]; try reflexivity. congruence.
Qed.

Lemma replace_device_no_at s : lacks "@" s -> replace_device s = s.
Proof.
  induction s as [|c s IH]; intros H; simpl; [reflexivity|].
  apply lacks_cons in H as [_ Hs].
  rewrite (match_device_needs_at s Hs), (IH Hs).
  now destruct (Ascii.eqb c ":").
Qed.

Lemma replace_device_no_colon s : lacks ":" s -> replace_device s = s.
Proof.
  induction s as [|c s IH]; intros H; simpl; [reflexivity|].
  apply lacks_cons in H as [Hc Hs].
  rewrite Ascii.eqb_sym in Hc. rewrite Hc. now rewrite IH.
Qed.

Lemma replace_device_first p d rest :
  lacks ":" p -> d <> "" -> all_digits d = true ->
  replace_device (p ++ String ":" (d ++ String "@" rest)) = (p ++ String "@" rest)%string.
Proof.
  intros Hp Hd Hall.
  induction p as [|c p IH]; simpl.
  - now rewrite match_device_run.
  - apply lacks_cons in Hp as [Hc Hp].
    rewrite Ascii.eqb_sym in Hc. rewrite Hc. now rewrite IH.
Qed.

(** ** Identity resolution *)

Lemma truthy_nonempty s : s <> "" -> truthy (JStr s) = true.
Proof. intros H. simpl. destruct s; [congruence | reflexivity]. Qed.

Lemma truthy_is_string v : truthy v = true -> exists s, v = JStr s /\ s <> "".
Proof.
  destruct v as [| |s]; simpl; try discriminate.
  intros H. exists s. split; [reflexivity|]. now destruct s.
Qed.

Lemma normalizeJid_string s :
  s <> "" ->
  normalizeJid (JStr s) =
  if includes_char "@" (replace_device s) then JStr (replace_device s)
  else JStr (replace_device s ++ default_domain).
Proof.
  intros H. unfold normalizeJid. rewrite (truthy_nonempty s H). simpl.
  now destruct (includes_char "@" (replace_device s)).
Qed.

Lemma getPhoneFromJid_string s :
  getPhoneFromJid (JStr s) = before_char ":" (before_char "@" s).
Proof.
  unfold getPhoneFromJid. destruct s; reflexivity.
Qed.

Lemma match_device_inv s r :
  match_device s = Some r ->
  exists d, d <> "" /\ all_digits d = true /\ s = (d ++ String "@" r)%string.
Proof.
  unfold match_device. destruct s as [|c s]; [discriminate|].
  destruct (is_digit c) eqn:Hc; [|discriminate].
  assert (G : forall t r', skip_digits t = String "@" r' ->
              exists d, all_digits d = true /\ t = (d ++ String "@" r')%string).
  { induction t as [|x t IH]; intros r' H; simpl in H; [discriminate|].
    destruct (is_digit x) eqn:Hx.
    - destruct (IH _ H) as (d & Hd & ->). exists (String x d). simpl.
      now rewrite Hx, Hd.
    - exists "". split; [reflexivity|]. exact H. }
  destruct (skip_digits s) as [|x k] eqn:K; [discriminate|].
  destruct (Ascii.eqb_spec x "@") as [->|Hx].
  - intros [= <-]. destruct (G _ _ K) as (d & Hd & ->).
    exists (String c d). simpl. rewrite Hc, Hd. repeat split. discriminate.
  - destruct x as [[] [] [] [] [] [] [] []]; try discriminate. congruence.
Qed.

Lemma device_free_tail c s : device_free (String c s) -> device_free s.
Proof.
  intros H a d b Hd Hall E. apply (H (String c a) d b Hd Hall). simpl. now rewrite E.
Qed.

Lemma device_free_head s :
  device_free s ->
  match s with
  | String c r => Ascii.eqb c ":" = true -> match_device r = None
  | EmptyString => True
  end.
Proof.
  destruct s as [|c r]; [trivial|]. intros H E.
  apply Ascii.eqb_eq in E. subst c.
  destruct (match_device r) as [k|] eqn:M; [|reflexivity].
  destruct (match_device_inv _ _ M) as (d & Hd & Hall & ->).
  exfalso. exact (H "" d k Hd Hall eq_refl).
Qed.

Lemma replace_device_free s : device_free s -> replace_device s = s.
Proof.
  induction s as [|c s IH]; intros H; [reflexivity|].
  cbn [replace_device].
  pose proof (device_free_head _ H) as Hh. cbn in Hh.
  destruct (Ascii.eqb c ":") eqn:E.
  - rewrite (Hh eq_refl). now rewrite (IH (device_free_tail _ _ H)).
  - now rewrite (IH (device_free_tail _ _ H)).
Qed.

(** A digit run that meets a [":"] before its ["@"] is no match. *)
Lemma digits_before_colon x y d r :
  all_digits d = true ->
  (x ++ String ":" y)%string = (d ++ String "@" r)%string ->
  exists b, x = (d ++ String "@" b)%string.
Proof.
  revert x. induction d as [|c d IH]; intros x Hall E.
  - destruct x as [|c x]; simpl in E; [discriminate|].
    injection E as -> E. now exists x.
  - simpl in Hall. apply andb_true_iff in Hall as [Hc Hd].
    destruct x as [|c' x]; simpl in E.
    + injection E as <- _. discriminate.
    + injection E as -> E. destruct (IH x Hd E) as (b & ->). now exists b.
Qed.

Lemma replace_device_leftmost p d rest :
  device_free p -> d <> "" -> all_digits d = true ->
  replace_device (p ++ String ":" (d ++ String "@" rest)) = (p ++ String "@" rest)%string.
Proof.
  intros Hp Hd Hall. induction p as [|c p IH]; simpl.
  - now rewrite match_device_run.
  - destruct (Ascii.eqb c ":") eqn:E.
    + destruct (match_device (p ++ String ":" (d ++ String "@" rest))) as [k|] eqn:M.
      * exfalso. destruct (match_device_inv _ _ M) as (d' & Hd' & Hall' & E').
        destruct (digits_before_colon _ _ _ _ Hall' E') as (b & ->).
        apply Ascii.eqb_eq in E. subst c.
        exact (Hp "" d' b Hd' Hall' eq_refl).
      * now rewrite (IH (device_free_tail _ _ Hp)).
    + now rewrite (IH (device_free_tail _ _ Hp)).
Qed.

Lemma device_free_cons c s :
  device_free s -> (Ascii.eqb c ":" = true -> match_device s = None) ->
  device_free (String c s).
Proof.
  intros Hs Hh a d b Hd Hall E.
  destruct a as [|c' a]; simpl in E.
  - injection E as -> ->. rewrite match_device_run in Hh by assumption.
    specialize (Hh eq_refl). discriminate.
  - injection E as -> E. exact (Hs a d b Hd Hall E).
Qed.

Lemma device_split s :
  device_free s
  \/ exists p d rest,
       device_free p /\ d <> "" /\ all_digits d = true
       /\ s = (p ++ String ":" (d ++ String "@" rest))%string.
Proof.
  induction s as [|c s IH].
  - left. intros a d b _ _ E. destruct a; discriminate.
  - destruct (Ascii.eqb c ":") eqn:E.
    + destruct (match_device s) as [k|] eqn:M.
      * right. destruct (match_device_inv _ _ M) as (d & Hd & Hall & ->).
        apply Ascii.eqb_eq in E. subst c.
        exists "", d, k. repeat split; try assumption.
        intros a d' b _ _ E'. destruct a; discriminate.
      * destruct IH as [Hf|(p & d & rest & Hp & Hd & Hall & ->)].
        -- left. apply device_free_cons; [assumption | now intros _].
        -- right. exists (String c p), d, rest. repeat split; try assumption.
           apply device_free_cons; [assumption|]. intros _.
           destruct (match_device p) as [k|] eqn:Mp; [|reflexivity].
           destruct (match_device_inv _ _ Mp) as (d' & Hd' & Hall' & ->).
           rewrite append_assoc in M. simpl in M.
           rewrite match_device_run in M by assumption. discriminate.
    + destruct IH as [Hf|(p & d & rest & Hp & Hd & Hall & ->)].
      * left. apply device_free_cons; [assumption|]. intros H. congruence.
      * right. exists (String c p), d, rest. repeat split; try assumption.
        apply device_free_cons; [assumption|]. intros H. congruence.
Qed.

Lemma device_free_no_at s : lacks "@" s -> device_free s.
Proof.
  intros H a d b _ _ E. subst s. unfold lacks in H.
  rewrite includes_append in H. cbn [includes_char] in H.
  rewrite includes_append in H. cbn [includes_char] in H.
  rewrite Ascii.eqb_refl in H. cbn in H.
  now rewrite !orb_true_r in H.
Qed.

Lemma identity_cases :
  (forall v, truthy v = false -> normalizeJid v = JNull /\ getPhoneFromJid v = "")
  /\ (forall p d rest, lacks ":" p -> d <> "" -> all_digits d = true ->
        normalizeJid (JStr (p ++ String ":" (d ++ String "@" rest)))
        = JStr (p ++ String "@" rest))
  /\ (forall s, s <> "" -> lacks "@" s ->
        normalizeJid (JStr s) = JStr (s ++ default_domain))
  /\ (forall s, lacks ":" s -> includes_char "@" s = true ->
        normalizeJid (JStr s) = JStr s)
  /\ (forall p c rest, c = "@"%char \/ c = ":"%char -> lacks "@" p -> lacks ":" p ->
        getPhoneFromJid (JStr (p ++ String c rest)) = p)
  /\ (forall s, lacks "@" s -> lacks ":" s -> getPhoneFromJid (JStr s) = s)
  /\ (forall v, lacks "@" (getPhoneFromJid v) /\ lacks ":" (getPhoneFromJid v)).
Proof.
  repeat split.
  - unfold normalizeJid. now rewrite H.
  - unfold getPhoneFromJid. now rewrite H.
  - intros p d rest Hp Hd Hall.
    rewrite normalizeJid_string by (destruct p; discriminate).
    rewrite replace_device_first by assumption.
    rewrite includes_append. simpl. now rewrite orb_true_r.
  - intros s Hne Hat.
    rewrite normalizeJid_string by assumption.
    rewrite replace_device_no_at by assumption.
    unfold lacks in Hat. now rewrite Hat.
  - intros s Hcolon Hat.
    assert (s <> "") by (destruct s; [discriminate | congruence]).
    rewrite normalizeJid_string by assumption.
    rewrite replace_device_no_colon by assumption. now rewrite Hat.
  - intros p c rest [-> | ->] Hat Hcolon; rewrite getPhoneFromJid_string.
    + rewrite before_char_found by assumption. now apply before_char_lacks.
    + rewrite before_char_append by assumption. now apply before_char_found.
  - intros s Hat Hcolon. rewrite getPhoneFromJid_string.
    rewrite (before_char_lacks "@") by assumption. now apply before_char_lacks.
  - destruct v as [| |s]; try reflexivity.
    rewrite getPhoneFromJid_string.
    apply before_char_keeps_free, before_char_is_free.
  - destruct v as [| |s]; try reflexivity.
    rewrite getPhoneFromJid_string. apply before_char_is_free.
Qed.

(** C6 (amended).  [normalizeJid] and [getPhoneFromJid] are total
    functions of their argument.  On [null], [undefined] and the empty
    string [normalizeJid] returns [null] and [getPhoneFromJid] the empty
    string.  On a non-empty string [normalizeJid] replaces the leftmost
    [":digits@"] by ["@"] (a device segment is removed only when a domain
    follows it) and appends ["@s.whatsapp.net"] when no ["@"] is present;
    an identifier with a domain and no [":"] is returned as it is.
    [getPhoneFromJid] returns what precedes the first ["@"] or [":"],
    the whole string when there is neither, and its result holds no
    separator.  The last three parts fix [normalizeJid] on every string:
    a string either holds no [":digits@"] at all, and is then returned
    as it is or with the default domain appended, or it splits at its
    leftmost [":digits@"], which alone is replaced. *)
Theorem identity_resolver_total :
  (forall v, truthy v = false -> normalizeJid v = JNull /\ getPhoneFromJid v = "")
  /\ (forall p d rest, lacks ":" p -> d <> "" -> all_digits d = true ->
        normalizeJid (JStr (p ++ String ":" (d ++ String "@" rest)))
        = JStr (p ++ String "@" rest))
  /\ (forall s, s <> "" -> lacks "@" s ->
        normalizeJid (JStr s) = JStr (s ++ default_domain))
  /\ (forall s, lacks ":" s -> includes_char "@" s = true ->
        normalizeJid (JStr s) = JStr s)
  /\ (forall p c rest, c = "@"%char \/ c = ":"%char -> lacks "@" p -> lacks ":" p ->
        getPhoneFromJid (JStr (p ++ String c rest)) = p)
  /\ (forall s, lacks "@" s -> lacks ":" s -> getPhoneFromJid (JStr s) = s)
  /\ (forall v, lacks "@" (getPhoneFromJid v) /\ lacks ":" (getPhoneFromJid v))
  /\ (forall p d rest, device_free p -> d <> "" -> all_digits d = true ->
        normalizeJid (JStr (p ++ String ":" (d ++ String "@" rest)))
        = JStr (p ++ String "@" rest))
  /\ (forall s, s <> "" -> device_free s ->
        normalizeJid (JStr s)
        = if includes_char "@" s then JStr s else JStr (s ++ default_domain))
  /\ (forall s,
        device_free s
        \/ exists p d rest,
             device_free p /\ d <> "" /\ all_digits d = true
             /\ s = (p ++ String ":" (d ++ String "@" rest))%string).
Proof.
  destruct identity_cases as (H1 & H2 & H3 & H4 & H5 & H6 & H7).
  do 7 (split; [assumption|]).
  split; [|split].
  - intros p d rest Hp Hd Hall.
    rewrite normalizeJid_string by (destruct p; discriminate).
    rewrite replace_device_leftmost by assumption.
    rewrite includes_append. simpl. now rewrite orb_true_r.
  - intros s Hne Hf.
    rewrite normalizeJid_string by assumption.
    now rewrite replace_device_free.
  - apply device_split.
Qed.

(** ** Name resolution *)

Lemma scan_contacts_find entries phone n :
  truthy n = false ->
  match find (fun e => (getPhoneFromJid (fst e) =? phone)%string
                       && truthy (contact_display (snd e))) entries with
  | Some e => scan_contacts entries phone n = contact_display (snd e)
              /\ truthy (contact_display (snd e)) = true
  | None => truthy (scan_contacts entries phone n) = false
  end.
Proof.
  revert n. induction entries as [|[k v] rest IH]; intros n Hn; simpl.
  - assumption.
  - destruct (getPhoneFromJid k =? phone)%string; simpl.
    + destruct (truthy (contact_display v)) eqn:E; [now split|].
      now apply IH.
    + now apply IH.
Qed.

Lemma jsor_truthy a b : truthy (jsor a b) = truthy a || truthy b.
Proof. unfold jsor. destruct (truthy a) eqn:E; [now rewrite E | reflexivity]. Qed.

Lemma phone_scan_agrees account jid :
  truthy (exact_match account jid) = false ->
  (truthy (phone_scan account jid) = true /\
   scan_contacts (Account.contacts account) (getPhoneFromJid (JStr jid))
     (exact_match account jid) = phone_scan account jid)
  \/ (truthy (phone_scan account jid) = false /\
      truthy (scan_contacts (Account.contacts account) (getPhoneFromJid (JStr jid))
                (exact_match account jid)) = false).
Proof.
  intros H. unfold phone_scan.
  pose proof (scan_contacts_find (Account.contacts account)
                (getPhoneFromJid (JStr jid)) _ H) as S.
  destruct (find _ (Account.contacts account)) as [e|].
  - left. destruct S as [S1 S2]. now split.
  - right. now split.
Qed.

Lemma push_name_jsor account jid :
  push_name account jid =
  jsor (jsor (get_or_undef (normalizeJid (JStr jid)) (Account.pushNames account))
             (get_or_undef (JStr jid) (Account.pushNames account)))
       (get_or_undef (JStr (getPhoneFromJid (JStr jid))) (Account.pushNames account)).
Proof.
  unfold push_name, first_truthy, jsor. simpl.
  destruct (truthy (get_or_undef (normalizeJid (JStr jid)) _)) eqn:E1.
  - now rewrite E1.
  - destruct (truthy (get_or_undef (JStr jid) _)) eqn:E2; reflexivity.
Qed.

Lemma lookup_name_find account jid :
  match find truthy (stored_candidates account jid) with
  | Some v => lookup_name account jid = v
  | None => truthy (lookup_name account jid) = false
  end.
Proof.
  unfold lookup_name, stored_candidates. cbv zeta.
  rewrite <- push_name_jsor.
  replace (match match map_get (normalizeJid (JStr jid)) (Account.contacts account) with
                 | Some c => Some c
                 | None => map_get (JStr jid) (Account.contacts account)
                 end with
           | Some c => contact_display c
           | None => JNull
           end) with (exact_match account jid)
    by (unfold exact_match;
        destruct (map_get (normalizeJid (JStr jid)) (Account.contacts account));
        reflexivity).
  simpl find.
  destruct (truthy (exact_match account jid)) eqn:E1; simpl;
    [now rewrite ?E1; simpl; rewrite ?E1|].
  destruct (phone_scan_agrees account jid E1) as [[T S]|[T S]]; rewrite T.
  - rewrite S, T. simpl. now rewrite T.
  - rewrite S. simpl.
    destruct (truthy (push_name account jid)) eqn:E3; simpl; [reflexivity|].
    unfold session_store_name.
    destruct (Account.sock account) as [s|]; [|assumption].
    destruct (Sock.store_contacts s) as [store|]; [|assumption].
    destruct (object_get jid store) as [c|].
    + destruct (truthy (contact_display c)) eqn:E4; first [reflexivity | assumption].
    + destruct (object_get _ store) as [c|]; [|assumption].
      destruct (truthy (contact_display c)) eqn:E4; first [reflexivity | assumption].
Qed.

Lemma find_truthy_is_string l v : find truthy l = Some v -> truthy v = true.
Proof. intros H. now apply find_some in H. Qed.

Lemma getContactInfo_name account jid :
  resolveName account jid = resolveName_spec account jid.
Proof.
  unfold resolveName, resolveName_spec, first_truthy, getContactInfo. cbv zeta.
  pose proof (lookup_name_find account jid) as L.
  destruct (find truthy (stored_candidates account jid)) as [v|] eqn:F.
  - rewrite L, (find_truthy_is_string _ _ F). simpl.
    now destruct (getProfilePicture account jid).
  - rewrite L. simpl. unfold group_lookup, fallback_label.
    destruct (endsWith jid "@g.us").
    + destruct (Account.sock account) as [s|].
      * destruct (Sock.groupMetadata s jid) as [md|]; simpl;
          now destruct (getProfilePicture _ jid).
      * now destruct (getProfilePicture _ jid).
    + destruct (endsWith jid "@lid"); [now destruct (getProfilePicture _ jid)|].
      destruct (endsWith jid "@newsletter"); now destruct (getProfilePicture _ jid).
Qed.

Lemma getProfilePicture_frame account jid :
  only_caches account (snd (getProfilePicture account jid))
  /\ Account.contacts (snd (getProfilePicture account jid)) = Account.contacts account.
Proof.
  unfold getProfilePicture, only_caches.
  destruct (map_has (JStr jid) (Account.profilePics account)); simpl.
  - repeat split.
  - destruct (match Account.sock account with
              | Some s => Sock.profilePictureUrl s jid
              | None => None
              end); simpl; repeat split.
Qed.

Lemma only_caches_refl a : only_caches a a.
Proof. unfold only_caches. repeat split. Qed.

Lemma only_caches_trans a b c : only_caches a b -> only_caches b c -> only_caches a c.
Proof.
  unfold only_caches.
  intros (F1 & F2 & F3 & F4 & F5 & F6 & F7 & F8 & F9)
         (P1 & P2 & P3 & P4 & P5 & P6 & P7 & P8 & P9).
  repeat split; congruence.
Qed.

(** [getContactInfo] writes to the directory and the picture cache only. *)
Lemma getContactInfo_frame account jid :
  only_caches account (snd (getContactInfo account jid)).
Proof.
  unfold getContactInfo. cbv zeta.
  set (step := if negb (truthy (lookup_name account jid)) then _ else _).
  assert (F : only_caches account (snd step)).
  { subst step.
    destruct (negb (truthy (lookup_name account jid))); [|apply only_caches_refl].
    destruct (endsWith jid "@g.us").
    - destruct (match Account.sock account with
                | Some s => Sock.groupMetadata s jid
                | None => None
                end); simpl; unfold only_caches; repeat split.
    - destruct (endsWith jid "@lid"); [apply only_caches_refl|].
      destruct (endsWith jid "@newsletter"); apply only_caches_refl. }
  destruct step as [nm a0]. simpl in F.
  pose proof (getProfilePicture_frame a0 jid) as [P _].
  destruct (getProfilePicture a0 jid) as [pic a']. simpl in *.
  eapply only_caches_trans; eassumption.
Qed.

Lemma getContactInfo_contacts account jid :
  Account.contacts (snd (getContactInfo account jid)) =
  match find truthy (stored_candidates account jid), group_lookup account jid with
  | None, Some subject =>
      map_set (JStr jid) (Contact.mk (JStr subject) (JStr subject) JUndef)
        (Account.contacts account)
  | _, _ => Account.contacts account
  end.
Proof.
  unfold getContactInfo. cbv zeta.
  pose proof (lookup_name_find account jid) as L.
  set (step := if negb (truthy (lookup_name account jid)) then _ else _).
  assert (F : Account.contacts (snd step) =
              match find truthy (stored_candidates account jid),
                    group_lookup account jid with
              | None, Some subject =>
                  map_set (JStr jid) (Contact.mk (JStr subject) (JStr subject) JUndef)
                    (Account.contacts account)
              | _, _ => Account.contacts account
              end).
  { subst step. unfold group_lookup.
    destruct (find truthy (stored_candidates account jid)) as [v|] eqn:Fd.
    - rewrite L, (find_truthy_is_string _ _ Fd). reflexivity.
    - rewrite L. simpl.
      destruct (endsWith jid "@g.us").
      + destruct (Account.sock account) as [s|]; [|reflexivity].
        destruct (Sock.groupMetadata s jid); reflexivity.
      + destruct (endsWith jid "@lid"); [reflexivity|].
        destruct (endsWith jid "@newsletter"); reflexivity. }
  destruct step as [nm a0]. simpl in F.
  pose proof (getProfilePicture_frame a0 jid) as [_ P].
  destruct (getProfilePicture a0 jid) as [pic a']. simpl in *.
  congruence.
Qed.

(** C5.  [getContactInfo] is a total function of the account state and
    the identifier: it always resolves a name that is a string, never
    [null] or [undefined].  The name is the first that exists among the
    exact directory match, the phone-number scan of the stored keys, the
    push-name table and the session's contact store; failing those, the
    subject a live group-metadata lookup answers, which is then stored in
    the directory under the identifier; failing that too, the synthesized
    label. *)
Theorem resolveName_total (account : Account.t) (jid : string) :
  (exists s, resolveName account jid = JStr s)
  /\ resolveName account jid = resolveName_spec account jid
  /\ Account.contacts (snd (getContactInfo account jid)) =
     match find truthy (stored_candidates account jid), group_lookup account jid with
     | None, Some subject =>
         map_set (JStr jid) (Contact.mk (JStr subject) (JStr subject) JUndef)
           (Account.contacts account)
     | _, _ => Account.contacts account
     end.
Proof.
  split; [|split; [apply getContactInfo_name | apply getContactInfo_contacts]].
  rewrite getContactInfo_name. unfold resolveName_spec, first_truthy.
  destruct (find truthy (stored_candidates account jid)) as [v|] eqn:F.
  - apply find_truthy_is_string, truthy_is_string in F as (s & -> & _). now exists s.
  - destruct (group_lookup account jid); eauto.
Qed.

(** ** The synthesized label of an ordinary number *)

Lemma length_slice_from n s :
  String.length (slice_from n s) = (String.length s - n)%nat.
Proof.
  revert s. induction n as [|n IH]; intros s; simpl.
  - now rewrite Nat.sub_0_r.
  - destruct s as [|c s]; simpl; [reflexivity | apply IH].
Qed.

Lemma format_number_9 ddd a b :
  String.length ddd = 2%nat -> String.length a = 5%nat -> String.length b = 4%nat ->
  format_number ("55" ++ ddd ++ a ++ b) = ("(" ++ ddd ++ ") " ++ a ++ "-" ++ b)%string.
Proof.
  intros Hd Ha Hb.
  destruct ddd as [|d1 [|d2 [|]]]; try discriminate.
  destruct a as [|a1 [|a2 [|a3 [|a4 [|a5 [|]]]]]]; try discriminate.
  destruct b as [|b1 [|b2 [|b3 [|b4 [|]]]]]; try discriminate.
  reflexivity.
Qed.

Lemma format_number_8 ddd a b :
  String.length ddd = 2%nat -> String.length a = 4%nat -> String.length b = 4%nat ->
  format_number ("55" ++ ddd ++ a ++ b) = ("(" ++ ddd ++ ") " ++ a ++ "-" ++ b)%string.
Proof.
  intros Hd Ha Hb.
  destruct ddd as [|d1 [|d2 [|]]]; try discriminate.
  destruct a as [|a1 [|a2 [|a3 [|a4 [|]]]]]; try discriminate.
  destruct b as [|b1 [|b2 [|b3 [|b4 [|]]]]]; try discriminate.
  reflexivity.
Qed.

Lemma format_number_other number :
  startsWith number "55" = false
  \/ (String.length number <> 12%nat /\ String.length number <> 13%nat) ->
  format_number number = ("+" ++ number)%string.
Proof.
  intros H. unfold format_number.
  destruct H as [H|[H12 H13]]; [now rewrite H|].
  destruct (startsWith number "55"); cbn [andb]; [|reflexivity].
  destruct (12 <=? String.length number)%nat eqn:L; [|reflexivity].
  cbv zeta. rewrite length_slice_from.
  apply Nat.leb_le in L.
  destruct (Nat.eqb_spec (String.length number - 4) 9); [lia|].
  destruct (Nat.eqb_spec (String.length number - 4) 8); [lia|].
  reflexivity.
Qed.

Lemma unnamed_resolves_label account jid :
  unnamed account jid -> ordinary jid ->
  resolveName account jid = JStr (format_number (getPhoneFromJid (JStr jid))).
Proof.
  intros U (G & L & N).
  rewrite getContactInfo_name. unfold resolveName_spec, first_truthy.
  rewrite U. unfold group_lookup, fallback_label. now rewrite G, L, N.
Qed.

(** C9.  For an identifier that no stage before the synthesized label
    names and that is neither a group, a channel nor a newsletter, the
    resolved name is the formatted phone extraction: ["(11) 98765-4321"]
    for ["5511987654321"]; under the country code ["55"], area code plus
    5 and 4 digits for a 9-digit local part and area code plus 4 and 4
    for an 8-digit one; and ["+"] followed by the number for a number
    that does not start with ["55"] or is not 12 or 13 characters long. *)
Theorem fallback_number_format (account : Account.t) (jid : string) :
  unnamed account jid -> ordinary jid ->
  (getPhoneFromJid (JStr jid) = "5511987654321" ->
   resolveName account jid = JStr "(11) 98765-4321")
  /\ (forall ddd a b,
        String.length ddd = 2%nat -> String.length a = 5%nat ->
        String.length b = 4%nat ->
        getPhoneFromJid (JStr jid) = ("55" ++ ddd ++ a ++ b)%string ->
        resolveName account jid = JStr ("(" ++ ddd ++ ") " ++ a ++ "-" ++ b))
  /\ (forall ddd a b,
        String.length ddd = 2%nat -> String.length a = 4%nat ->
        String.length b = 4%nat ->
        getPhoneFromJid (JStr jid) = ("55" ++ ddd ++ a ++ b)%string ->
        resolveName account jid = JStr ("(" ++ ddd ++ ") " ++ a ++ "-" ++ b))
  /\ (startsWith (getPhoneFromJid (JStr jid)) "55" = false
      \/ (String.length (getPhoneFromJid (JStr jid)) <> 12%nat
          /\ String.length (getPhoneFromJid (JStr jid)) <> 13%nat) ->
      resolveName account jid = JStr ("+" ++ getPhoneFromJid (JStr jid))).
Proof.
  intros U O. rewrite (unnamed_resolves_label account jid U O).
  repeat split.
  - intros ->. reflexivity.
  - intros ddd a b Hd Ha Hb ->. now rewrite format_number_9.
  - intros ddd a b Hd Ha Hb ->. now rewrite format_number_8.
  - intros H. now rewrite format_number_other.
Qed.

(** ** Sorting *)

Section SortFacts.
Context {A : Type}.
Variable cmp : A -> A -> Z.
Hypothesis cmp_total : forall x y, cmp x y <= 0 \/ cmp y x <= 0.
Hypothesis cmp_trans : forall x y z, cmp x y <= 0 -> cmp y z <= 0 -> cmp x z <= 0.

Lemma sort_insert_perm x l : Permutation (x :: l) (sort_insert cmp x l).
Proof.
  induction l as [|y r IH]; simpl; [reflexivity|].
  destruct (cmp x y <=? 0); [reflexivity|].
  rewrite perm_swap. now apply perm_skip.
Qed.

Lemma array_sort_perm l : Permutation l (array_sort cmp l).
Proof.
  induction l as [|x l IH]; simpl; [reflexivity|].
  rewrite <- sort_insert_perm. now apply perm_skip.
Qed.

Lemma sort_insert_sorted x l :
  StronglySorted (fun x y => cmp x y <= 0) l -> StronglySorted (fun x y => cmp x y <= 0) (sort_insert cmp x l).
Proof.
  induction 1 as [|y r Hr IH Hy]; simpl.
  - repeat constructor.
  - destruct (Z.leb_spec (cmp x y) 0) as [Hxy|Hxy].
    + constructor; [now constructor|].
      constructor; [assumption|].
      eapply Forall_impl; [|exact Hy]. intros z Hz. now apply (cmp_trans x y z).
    + constructor; [assumption|].
      assert (Hyx : cmp y x <= 0) by (destruct (cmp_total x y); [lia | assumption]).
      apply Forall_forall. intros z Hz.
      apply (Permutation_in _ (Permutation_sym (sort_insert_perm x r))) in Hz.
      destruct Hz as [<-|Hz]; [assumption|].
      now apply (proj1 (Forall_forall _ _) Hy).
Qed.

Lemma array_sort_sorted l : StronglySorted (fun x y => cmp x y <= 0) (array_sort cmp l).
Proof.
  induction l as [|x l IH]; simpl; [constructor | now apply sort_insert_sorted].
Qed.

End SortFacts.

Lemma firstn_sorted {A : Type} (R : A -> A -> Prop) n l :
  StronglySorted R l -> StronglySorted R (firstn n l).
Proof.
  intros H. revert n. induction H as [|y r Hr IH Hy]; intros [|n]; simpl;
    try constructor.
  - apply IH.
  - apply Forall_forall. intros z Hz. apply (proj1 (Forall_forall _ _) Hy).
    revert Hz. clear. revert n. induction r as [|a r IH]; intros [|n]; simpl; try tauto.
    intros [->|H]; [now left | right; eauto].
Qed.

Lemma StronglySorted_weaken {A : Type} (R S : A -> A -> Prop) l :
  (forall x y, R x y -> S x y) -> StronglySorted R l -> StronglySorted S l.
Proof.
  intros HRS H. induction H as [|x l Hl IH Hx]; constructor; [assumption|].
  eapply Forall_impl; [|exact Hx]. intros y. apply HRS.
Qed.

(** ** The chat-list projection *)

Lemma format_chats_annotates chatArray :
  forall account formatted,
    exists entries,
      fst (format_chats account chatArray formatted) = formatted ++ entries
      /\ annotated_from account (filter has_activity chatArray) entries.
Proof.
  induction chatArray as [|chat rest IH]; intros account formatted.
  - exists []. cbn. now rewrite app_nil_r.
  - cbn [format_chats filter].
    assert (A : (match Chat.lastMessage chat with
                 | Some _ => false
                 | None => true
                 end && negb (num_truthy (Chat.conversationTimestamp chat)))
                = negb (has_activity chat)).
    { unfold has_activity. now destruct (Chat.lastMessage chat). }
    rewrite A. destruct (has_activity chat); cbn [negb].
    + destruct (getContactInfo account (Chat.id chat)) as [info account'] eqn:E.
      destruct (IH account'
                  (formatted ++
                   [FChat.mk (Chat.id chat) (Info.name info) (Info.profilePic info)
                      (Chat.lastMessage chat)
                      (num_or (Chat.timestamp chat) (Chat.conversationTimestamp chat))
                      (num_or0 (Chat.unreadCount chat))]))
        as (entries & Hf & Ha).
      eexists (_ :: entries). split.
      * rewrite Hf, <- app_assoc. reflexivity.
      * cbn [annotated_from]. unfold annotates. rewrite E. cbn.
        split; [repeat split | exact Ha].
    + apply IH.
Qed.

Lemma by_timestamp_desc_total x y :
  by_timestamp_desc x y <= 0 \/ by_timestamp_desc y x <= 0.
Proof. unfold by_timestamp_desc. lia. Qed.

Lemma by_timestamp_desc_trans x y z :
  by_timestamp_desc x y <= 0 -> by_timestamp_desc y z <= 0 ->
  by_timestamp_desc x z <= 0.
Proof. unfold by_timestamp_desc. lia. Qed.

(** C7.  The projection [getFormattedChats] computes holds at most 50
    entries and is sorted by non-increasing timestamp.  It is the first 50
    entries of a sorted rearrangement of one entry per chat with activity
    (a last message or a recorded conversation timestamp), in which each
    entry carries its chat's id, last message, timestamp and unread
    counter and the name and avatar [getContactInfo] resolves for it, in
    the state the resolutions for the chats before it left. *)
Theorem listProjection_spec (account : Account.t) :
  let projection := fst (getFormattedChats account) in
  (List.length projection <= 50)%nat
  /\ StronglySorted not_older projection
  /\ exists full formatted,
       projection = firstn 50 full
       /\ StronglySorted not_older full
       /\ Permutation formatted full
       /\ annotated_from account
            (filter has_activity (map_values (Account.chats account))) formatted.
Proof.
  unfold getFormattedChats. cbv zeta.
  destruct (format_chats_annotates (map_values (Account.chats account)) account [])
    as (entries & HE & HF).
  destruct (format_chats account (map_values (Account.chats account)) [])
    as [formatted account'].
  cbn [fst snd app] in *. subst entries. unfold array_slice_to.
  assert (HS : StronglySorted not_older (array_sort by_timestamp_desc formatted)).
  { eapply StronglySorted_weaken;
      [|apply array_sort_sorted;
        [apply by_timestamp_desc_total | apply by_timestamp_desc_trans]].
    intros x y. unfold by_timestamp_desc, not_older, sort_key. lia. }
  split; [apply firstn_le_length|].
  split.
  - now apply firstn_sorted.
  - exists (array_sort by_timestamp_desc formatted), formatted.
    repeat split; [assumption | apply array_sort_perm | assumption].
Qed.

(** ** The history window *)

Lemma array_slice_last {A : Type} (n : Z) (l : list A) :
  0 < n -> array_slice_from (- n) l = last_n (Z.to_nat n) l.
Proof.
  intros Hn. unfold array_slice_from, last_n. cbv zeta.
  destruct (Z.ltb_spec (- n) 0) as [_|H]; [|lia].
  f_equal. lia.
Qed.

Lemma last_n_singleton {A : Type} (n : nat) (x : A) : (0 < n)%nat -> last_n n [x] = [x].
Proof. intros H. unfold last_n. destruct n; [lia | reflexivity]. Qed.

Lemma since_scenario now m1 m2 :
  Msg.messageTimestamp m1 = now ->
  Msg.messageTimestamp m2 = now - 2 * 24 * 60 * 60 ->
  since (now - 1 * 24 * 60 * 60) [m1; m2] = [m1].
Proof.
  intros H1 H2. unfold since. cbn [filter]. rewrite H1, H2.
  replace (now - 1 * 24 * 60 * 60 <=? now) with true
    by (symmetry; apply Z.leb_le; lia).
  replace (now - 1 * 24 * 60 * 60 <=? now - 2 * 24 * 60 * 60) with false
    by (symmetry; apply Z.leb_gt; lia).
  reflexivity.
Qed.

Lemma window_size_limit limit : num_or0 (num_or limit (Some 100)) = window_size limit.
Proof. destruct limit as [[| |]|]; reflexivity. Qed.

Lemma since_filter dl storedMsgs now days limit :
  snd (history_window dl storedMsgs now days limit)
  = Z.of_nat (List.length (since (now - days * 24 * 60 * 60) storedMsgs)).
Proof.
  unfold history_window, since. cbv zeta. simpl. do 2 f_equal.
  apply filter_ext. intros m. apply Z.geb_leb.
Qed.

Lemma by_timestamp_asc_total x y :
  by_timestamp_asc x y <= 0 \/ by_timestamp_asc y x <= 0.
Proof. unfold by_timestamp_asc. lia. Qed.

Lemma by_timestamp_asc_trans x y z :
  by_timestamp_asc x y <= 0 -> by_timestamp_asc y z <= 0 -> by_timestamp_asc x z <= 0.
Proof. unfold by_timestamp_asc. lia. Qed.

Lemma array_sort_ascending l : StronglySorted not_later (array_sort by_timestamp_asc l).
Proof.
  eapply StronglySorted_weaken;
    [|apply array_sort_sorted;
      [apply by_timestamp_asc_total | apply by_timestamp_asc_trans]].
  intros x y. unfold by_timestamp_asc, not_later. lia.
Qed.

Lemma sorted_app_order {A : Type} (R : A -> A -> Prop) (l1 l2 : list A) :
  StronglySorted R (l1 ++ l2) -> forall x y, In x l1 -> In y l2 -> R x y.
Proof.
  induction l1 as [|a l1 IH]; intros H x y Hx Hy; [contradiction|].
  cbn in H. inversion H as [|? ? Hs Hf]; subst.
  destruct Hx as [->|Hx].
  - apply (proj1 (Forall_forall _ _) Hf). apply in_or_app. now right.
  - now apply IH.
Qed.

Lemma last_n_length {A : Type} (n : nat) (l : list A) :
  List.length (last_n n l) = Nat.min n (List.length l).
Proof. unfold last_n. rewrite length_skipn. lia. Qed.

Lemma last_n_split {A : Type} (n : nat) (l : list A) :
  l = firstn (List.length l - n) l ++ last_n n l.
Proof. unfold last_n. now rewrite firstn_skipn. Qed.

Lemma last_n_all {A : Type} (n : nat) (l : list A) :
  (List.length l <= n)%nat -> last_n n l = l.
Proof.
  intros H. unfold last_n.
  replace (List.length l - n)%nat with 0%nat by lia. reflexivity.
Qed.

(** C8 (amended).  For every message log, day window and requested limit
    that is not negative, the history window holds stored messages with
    timestamp at least [now - days * 86400], formatted and in ascending
    timestamp order, as many as the limit allows: all of them when no
    more than the limit match, and otherwise [limit] of them, which are
    the most recent ones whenever the matching messages are stored in
    ascending timestamp order.  A limit of 0 or no limit stands for 100.
    The reported total is the number of messages that passed the
    timestamp filter.  In particular, with [days = 1], a log of one
    message timestamped [now] followed by one timestamped [now - 2 days]
    yields the first message alone and a total of 1. *)
Theorem history_window_spec (dl : Msg.t -> option string)
        (storedMsgs : list Msg.t) (now days : Z) (limit : jsnum) :
  0 < window_size limit ->
  let sinceEpoch := now - days * 24 * 60 * 60 in
  let matched := since sinceEpoch storedMsgs in
  let maxCount := Z.to_nat (window_size limit) in
  let result := history_window dl storedMsgs now days limit in
  snd result = Z.of_nat (List.length matched)
  /\ StronglySorted not_later (fst result)
  /\ (exists older window,
        Permutation matched (older ++ window)
        /\ Permutation (map (fun msg => formatMessage dl msg false) window) (fst result)
        /\ List.length window = Nat.min maxCount (List.length matched)
        /\ (in_time_order matched \/ (List.length matched <= maxCount)%nat ->
            none_newer older window))
  /\ ((List.length matched <= maxCount)%nat ->
      Permutation (map (fun msg => formatMessage dl msg false) matched) (fst result))
  /\ (forall m1 m2,
        days = 1 -> storedMsgs = [m1; m2] ->
        Msg.messageTimestamp m1 = now ->
        Msg.messageTimestamp m2 = now - 2 * 24 * 60 * 60 ->
        result = ([formatMessage dl m1 false], 1)).
Proof.
  intros Hpos. cbv zeta.
  set (matched := since (now - days * 24 * 60 * 60) storedMsgs).
  set (maxCount := Z.to_nat (window_size limit)).
  split; [apply since_filter|].
  assert (E : fst (history_window dl storedMsgs now days limit) =
              array_sort by_timestamp_asc
                (map (fun msg => formatMessage dl msg false) (last_n maxCount matched))).
  { unfold history_window. cbv zeta. cbn [fst].
    rewrite window_size_limit, array_slice_last by assumption.
    do 3 f_equal. unfold matched, since. apply filter_ext. intros m. apply Z.geb_leb. }
  split; [rewrite E; apply array_sort_ascending|].
  split.
  { exists (firstn (List.length matched - maxCount) matched), (last_n maxCount matched).
    split; [rewrite <- last_n_split; reflexivity|].
    split; [rewrite E; apply array_sort_perm|].
    split; [apply last_n_length|].
    intros [S|L] o w Ho Hw.
    - apply (sorted_app_order
               (fun a b => Msg.messageTimestamp a <= Msg.messageTimestamp b)
               (firstn (List.length matched - maxCount) matched)
               (last_n maxCount matched)); [|assumption|assumption].
      rewrite <- last_n_split. exact S.
    - replace (List.length matched - maxCount)%nat with 0%nat in Ho by lia.
      contradiction. }
  split.
  { intros L. rewrite E, (last_n_all _ _ L). apply array_sort_perm. }
  intros m1 m2 -> -> H1 H2.
  apply injective_projections; [rewrite E | rewrite since_filter]; unfold matched;
    rewrite (since_scenario now m1 m2 H1 H2).
  - rewrite last_n_singleton by (unfold maxCount; lia). reflexivity.
  - reflexivity.
Qed.

(** ** Maps *)

Lemma jsval_eqb_refl k : jsval_eqb k k = true.
Proof. destruct k; simpl; try reflexivity. apply String.eqb_refl. Qed.

Lemma jsval_eqb_eq a b : jsval_eqb a b = true <-> a = b.
Proof.
  split; [|intros ->; apply jsval_eqb_refl].
  destruct a, b; simpl; try discriminate; try reflexivity.
  intros H. apply String.eqb_eq in H. now subst.
Qed.

Section MapFacts.
Context {V : Type}.
Implicit Types (m : jsmap V) (k : jsval) (v : V).

Lemma map_get_set_same k v m : map_get k (map_set k v m) = Some v.
Proof.
  induction m as [|[k' v'] r IH]; simpl.
  - now rewrite jsval_eqb_refl.
  - destruct (jsval_eqb k k') eqn:E; simpl; rewrite E; [reflexivity | assumption].
Qed.

Lemma map_get_set_other k k' v m :
  jsval_eqb k' k = false -> map_get k' (map_set k v m) = map_get k' m.
Proof.
  intros Hk. induction m as [|[k0 v0] r IH]; simpl.
  - now rewrite Hk.
  - destruct (jsval_eqb k k0) eqn:E; simpl.
    + apply jsval_eqb_eq in E. subst k0. now rewrite Hk.
    + now rewrite IH.
Qed.

Lemma map_set_known k v m : map_get k m = Some v -> map_set k v m = m.
Proof.
  induction m as [|[k' v'] r IH]; simpl; [discriminate|].
  destruct (jsval_eqb k k') eqn:E.
  - now intros [= ->].
  - intros H. now rewrite IH.
Qed.

Lemma map_set_twice k v v' m : map_set k v (map_set k v' m) = map_set k v m.
Proof.
  induction m as [|[k0 v0] r IH]; simpl.
  - now rewrite jsval_eqb_refl.
  - destruct (jsval_eqb k k0) eqn:E; simpl; rewrite E; [reflexivity | now rewrite IH].
Qed.

Lemma map_has_set k v m : map_has k (map_set k v m) = true.
Proof. unfold map_has. now rewrite map_get_set_same. Qed.
End MapFacts.

(** ** The message store *)

Lemma store_message_log account jid msg :
  chat_log (store_message account jid msg) jid =
  if logged msg (chat_log account jid) then chat_log account jid
  else chat_log account jid ++ [msg].
Proof.
  unfold store_message, chat_log, logged, map_has. cbv zeta. simpl.
  destruct (map_get (JStr jid) (Account.messages account)) as [l|] eqn:G; simpl.
  - rewrite G.
    destruct (existsb _ l); simpl; [now rewrite G | now rewrite map_get_set_same].
  - rewrite map_get_set_same. simpl. now rewrite map_get_set_same.
Qed.

Lemma store_message_other account jid msg jid' :
  jid' <> jid -> chat_log (store_message account jid msg) jid' = chat_log account jid'.
Proof.
  intros Hne.
  assert (Hk : jsval_eqb (JStr jid') (JStr jid) = false).
  { simpl. now apply String.eqb_neq. }
  unfold store_message, chat_log. cbv zeta. simpl.
  destruct (negb (map_has (JStr jid) (Account.messages account)));
    destruct (negb (existsb _ _)); simpl;
    now rewrite ?map_get_set_other by assumption.
Qed.

Lemma logged_app msg l l' : logged msg (l ++ l') = logged msg l || logged msg l'.
Proof. unfold logged. apply existsb_app. Qed.

Lemma logged_self msg : logged msg [msg] = true.
Proof. unfold logged. simpl. now rewrite String.eqb_refl. Qed.

(** Appending through the deduplicating path twice is appending once, and
    the log grows by one message exactly when the id was not logged. *)
Lemma store_message_twice account jid msg :
  chat_log (store_message (store_message account jid msg) jid msg) jid
  = chat_log (store_message account jid msg) jid
  /\ List.length (chat_log (store_message account jid msg) jid)
     = (List.length (chat_log account jid)
        + if logged msg (chat_log account jid) then 0 else 1)%nat.
Proof.
  rewrite !store_message_log.
  destruct (logged msg (chat_log account jid)) eqn:L.
  - rewrite L. split; [reflexivity | lia].
  - rewrite logged_app, logged_self, orb_true_r.
    split; [reflexivity|]. rewrite length_app. reflexivity.
Qed.

Lemma record_sent_log account jid sent :
  chat_log (record_sent account jid sent) jid = chat_log account jid ++ [sent].
Proof.
  unfold record_sent, chat_log, map_has. cbv zeta. simpl.
  destruct (map_get (JStr jid) (Account.messages account)) as [l|] eqn:G; simpl.
  - rewrite G. now rewrite map_get_set_same.
  - rewrite map_get_set_same. simpl. now rewrite map_get_set_same.
Qed.

(** ** Broadcasts *)

Lemma chats_broadcasts_app l l' :
  chats_broadcasts (l ++ l') = (chats_broadcasts l + chats_broadcasts l')%nat.
Proof. unfold chats_broadcasts. now rewrite filter_app, length_app. Qed.

Lemma format_chats_frame chatArray :
  forall account formatted,
    only_caches account (snd (format_chats account chatArray formatted)).
Proof.
  induction chatArray as [|chat rest IH]; intros account formatted; simpl.
  - apply only_caches_refl.
  - destruct (_ && _); [apply IH|].
    pose proof (getContactInfo_frame account (Chat.id chat)) as Fr.
    destruct (getContactInfo account (Chat.id chat)) as [info account'].
    simpl in Fr. eapply only_caches_trans; [exact Fr | apply IH].
Qed.

Lemma getFormattedChats_frame account :
  only_caches account (snd (getFormattedChats account)).
Proof.
  unfold getFormattedChats. cbv zeta.
  pose proof (format_chats_frame (map_values (Account.chats account)) account []) as Fr.
  now destruct (format_chats account (map_values (Account.chats account)) []).
Qed.

(** The closing broadcast of a handler is one chat-list broadcast. *)
Lemma broadcast_chats_once account :
  chats_broadcasts (snd (broadcast_chats account)) = 1%nat
  /\ only_caches account (fst (broadcast_chats account)).
Proof.
  unfold broadcast_chats.
  pose proof (getFormattedChats_frame account) as Fr.
  destruct (getFormattedChats account) as [chats account']. now split.
Qed.

Lemma broadcast_if_connected_count account :
  chats_broadcasts (snd (broadcast_chats_if_connected account))
  = if ConnState_eqb (Account.connectionState account) connected then 1%nat else 0%nat.
Proof.
  unfold broadcast_chats_if_connected.
  destruct (ConnState_eqb (Account.connectionState account) connected);
    [apply broadcast_chats_once | reflexivity].
Qed.

Lemma updateChatInList_once dl account jid msg :
  chats_broadcasts (snd (updateChatInList dl account jid msg)) = 1%nat
  /\ Account.messages (fst (updateChatInList dl account jid msg))
     = Account.messages account.
Proof.
  unfold updateChatInList. cbv zeta.
  match goal with
  | |- context [getFormattedChats ?a] =>
      pose proof (getFormattedChats_frame a) as Fr;
      destruct (getFormattedChats a) as [chats account']
  end.
  split; [reflexivity|]. simpl in *.
  destruct Fr as (_ & _ & _ & _ & _ & Fm & _). exact Fm.
Qed.

Lemma contacts_upsert_state account newContacts :
  Account.connectionState (fold_left contacts_upsert_one newContacts account)
  = Account.connectionState account.
Proof.
  revert account. induction newContacts as [|c rest IH]; intros account; simpl;
    [reflexivity|].
  rewrite IH. unfold contacts_upsert_one. cbv zeta.
  now destruct (truthy _).
Qed.

Lemma contacts_update_state account updates :
  Account.connectionState (fold_left contacts_update_one updates account)
  = Account.connectionState account.
Proof.
  revert account. induction updates as [|u rest IH]; intros account; simpl;
    [reflexivity|].
  rewrite IH. unfold contacts_update_one. cbv zeta.
  now destruct (truthy _).
Qed.

Lemma messages_upsert_count dl type newMessages :
  forall account log,
    chats_broadcasts (snd (fold_left (messages_upsert_one dl type) newMessages
                             (account, log)))
    = (chats_broadcasts log
       + List.length (filter (fun msg => negb (Msg.fromMe (Msg.key msg))
                                         && is_notify type) newMessages))%nat.
Proof.
  induction newMessages as [|msg rest IH]; intros account log;
    cbn [fold_left filter]; [simpl; lia|].
  unfold messages_upsert_one at 2. cbv zeta.
  set (a1 := store_message _ (Msg.remoteJid (Msg.key msg)) msg).
  replace (match type with notify => true | append => false end)
    with (is_notify type) by (now destruct type).
  destruct (negb (Msg.fromMe (Msg.key msg)) && is_notify type).
  - destruct (getContactInfo a1 (Msg.remoteJid (Msg.key msg))) as [info a2].
    pose proof (updateChatInList_once dl a2 (Msg.remoteJid (Msg.key msg)) msg) as [U _].
    destruct (updateChatInList dl a2 (Msg.remoteJid (Msg.key msg)) msg) as [a3 emitted].
    rewrite IH. simpl in U. rewrite !chats_broadcasts_app, U. simpl. lia.
  - rewrite IH. lia.
Qed.

(** C1 (amended).  A chat batch upsert, a chat incremental update and a
    bulk history sync each emit exactly one chat-list broadcast, whatever
    the size of the batch.  A contact batch upsert and a contact
    incremental update emit one when the account is connected and none
    otherwise.  A message batch upsert emits one chat-list broadcast for
    each message of the batch that is inbound and delivered live, so none
    for a batch without such a message and several for a batch with
    several. *)
Theorem broadcasts_per_batch (dl : Msg.t -> option string) (account : Account.t) :
  (forall newChats,
      chats_broadcasts (snd (on_chats_upsert account newChats)) = 1%nat)
  /\ (forall updates,
        chats_broadcasts (snd (on_chats_update account updates)) = 1%nat)
  /\ (forall syncedChats syncedMessages,
        chats_broadcasts
          (snd (on_messaging_history_set account syncedChats syncedMessages)) = 1%nat)
  /\ (forall newContacts,
        chats_broadcasts (snd (on_contacts_upsert account newContacts))
        = if ConnState_eqb (Account.connectionState account) connected
          then 1%nat else 0%nat)
  /\ (forall updates,
        chats_broadcasts (snd (on_contacts_update account updates))
        = if ConnState_eqb (Account.connectionState account) connected
          then 1%nat else 0%nat)
  /\ (forall newMessages type,
        chats_broadcasts (snd (on_messages_upsert dl account newMessages type))
        = List.length (filter (fun msg => negb (Msg.fromMe (Msg.key msg))
                                          && is_notify type) newMessages)).
Proof.
  repeat split; intros.
  - apply broadcast_chats_once.
  - apply broadcast_chats_once.
  - apply broadcast_chats_once.
  - unfold on_contacts_upsert.
    now rewrite broadcast_if_connected_count, contacts_upsert_state.
  - unfold on_contacts_update.
    now rewrite broadcast_if_connected_count, contacts_update_state.
  - unfold on_messages_upsert. now rewrite messages_upsert_count.
Qed.

(** ** The contact directory *)

Lemma jsor_absorb a b : jsor a (jsor a b) = jsor a b.
Proof. unfold jsor. now destruct (truthy a). Qed.

Lemma jsor_truthy_left a b : truthy a = true -> jsor a b = a.
Proof. unfold jsor. now intros ->. Qed.

Lemma or_null_truthy a : truthy a = true -> or_null a = a.
Proof. apply jsor_truthy_left. Qed.

Lemma account_eta (a : Account.t) :
  a = Account.mk (Account.id a) (Account.name a) (Account.sock a)
        (Account.connectionState a) (Account.qrCodeData a) (Account.chats a)
        (Account.messages a) (Account.contacts a) (Account.profilePics a)
        (Account.pushNames a) (Account.authFolder a) (Account.phoneNumber a).
Proof. now destruct a. Qed.

(** Writing the same value under two keys, twice. *)
Lemma map_set_pair_twice {V : Type} (k1 k2 : jsval) (v : V) (m : jsmap V) :
  map_set k2 v (map_set k1 v (map_set k2 v (map_set k1 v m)))
  = map_set k2 v (map_set k1 v m).
Proof.
  assert (H1 : map_get k1 (map_set k2 v (map_set k1 v m)) = Some v).
  { destruct (jsval_eqb k1 k2) eqn:E.
    - apply jsval_eqb_eq in E. subst. apply map_get_set_same.
    - rewrite map_get_set_other by assumption. apply map_get_set_same. }
  rewrite (map_set_known k1 v _ H1).
  apply map_set_known, map_get_set_same.
Qed.

Lemma contacts_upsert_idempotent account contact :
  contacts_upsert_one (contacts_upsert_one account contact) contact
  = contacts_upsert_one account contact.
Proof.
  unfold contacts_upsert_one. cbv zeta.
  destruct (truthy (jsor (jsor (WAContact.name contact) (WAContact.notify contact))
                      (WAContact.verifiedName contact))) eqn:T; [|reflexivity].
  unfold Account.set_pushNames, Account.set_contacts. simpl.
  now rewrite !map_set_pair_twice.
Qed.

Lemma contacts_update_idempotent account update :
  contacts_update_one (contacts_update_one account update) update
  = contacts_update_one account update.
Proof.
  unfold contacts_update_one at 2. cbv zeta.
  set (existing := match map_get (JStr (WAContact.id update)) (Account.contacts account) with
                   | Some c => c
                   | None => Contact.empty
                   end).
  set (name := jsor (jsor (WAContact.name update) (WAContact.notify update))
                 (Contact.name existing)).
  destruct (truthy name) eqn:T.
  - unfold contacts_update_one. cbv zeta. simpl Account.contacts.
    rewrite map_get_set_same. simpl Contact.name. simpl Contact.notify.
    simpl Contact.verifiedName.
    fold existing. fold name.
    replace (jsor (jsor (WAContact.name update) (WAContact.notify update)) name)
      with name by (unfold name; now rewrite jsor_absorb).
    rewrite T, jsor_absorb.
    unfold Account.set_contacts. simpl. now rewrite map_set_twice.
  - unfold contacts_update_one. cbv zeta. fold existing. fold name. now rewrite T.
Qed.

Lemma contacts_upsert_stored account contact :
  let name := jsor (jsor (WAContact.name contact) (WAContact.notify contact))
                (WAContact.verifiedName contact) in
  truthy name = true ->
  exact_match (contacts_upsert_one account contact) (WAContact.id contact) = name.
Proof.
  intros name T. unfold contacts_upsert_one. cbv zeta. fold name. rewrite T.
  unfold exact_match. simpl Account.contacts.
  rewrite map_get_set_same. unfold contact_display. simpl.
  rewrite (or_null_truthy name T).
  rewrite (jsor_truthy_left name _ T). now apply jsor_truthy_left.
Qed.

Lemma resolve_exact account jid :
  truthy (exact_match account jid) = true ->
  resolveName account jid = exact_match account jid.
Proof.
  intros T. rewrite getContactInfo_name.
  unfold resolveName_spec, first_truthy, stored_candidates. simpl. now rewrite T.
Qed.

(** C3 (amended).  Merging the same partial contact record twice, by the
    batch upsert or by the incremental update, leaves the account in the
    state one merge produces.  A record upserted with some name resolves
    to its explicit name, else its notify name, else its verified name.
    An incremental update stores as name its own explicit name, else its
    own notify name, else the name already stored: the stored name is
    kept only when the update carries neither. *)
Theorem contact_merge_spec (account : Account.t) (partial : WAContact.t) :
  contacts_upsert_one (contacts_upsert_one account partial) partial
  = contacts_upsert_one account partial
  /\ contacts_update_one (contacts_update_one account partial) partial
     = contacts_update_one account partial
  /\ (let name := jsor (jsor (WAContact.name partial) (WAContact.notify partial))
                    (WAContact.verifiedName partial) in
      truthy name = true ->
      resolveName (contacts_upsert_one account partial) (WAContact.id partial) = name)
  /\ (let existing :=
        match map_get (JStr (WAContact.id partial)) (Account.contacts account) with
        | Some c => c
        | None => Contact.empty
        end in
      let name := jsor (jsor (WAContact.name partial) (WAContact.notify partial))
                    (Contact.name existing) in
      truthy name = true ->
      map_get (JStr (WAContact.id partial))
        (Account.contacts (contacts_update_one account partial))
      = Some (Contact.mk name
                (jsor (WAContact.notify partial) (Contact.notify existing))
                (Contact.verifiedName existing))).
Proof.
  split; [apply contacts_upsert_idempotent|].
  split; [apply contacts_update_idempotent|].
  split.
  - intros name T.
    pose proof (contacts_upsert_stored account partial T) as E.
    rewrite resolve_exact; [exact E | rewrite E; exact T].
  - intros existing name T. unfold contacts_update_one. cbv zeta.
    fold existing. fold name. rewrite T. simpl. apply map_get_set_same.
Qed.

(** ** The account heap *)

Lemma nth_error_update_nth {A : Type} (l : list A) n x y :
  nth_error l n = Some y -> nth_error (World.update_nth n x l) n = Some x.
Proof.
  revert n. induction l as [|a l IH]; intros [|n]; simpl; try discriminate.
  - reflexivity.
  - apply IH.
Qed.

Lemma deref_store r a a' w :
  World.deref r w = Some a -> World.deref r (World.store r a' w) = Some a'.
Proof. unfold World.deref, World.store. simpl. apply nth_error_update_nth. Qed.

Lemma find_account_deref accountId w r account :
  find_account accountId w = Some (r, account) -> World.deref r w = Some account.
Proof.
  unfold find_account.
  destruct (map_get (JStr accountId) (World.accounts w)) as [r'|]; [|discriminate].
  destruct (World.deref r' w) as [a|] eqn:E; [|discriminate].
  now intros [= <- <-].
Qed.

(** ** Reading a chat marks it read *)

(** C10 (amended).  For an account that is registered and connected,
    handling a fetch-messages command for a chat the account's chat store
    holds resets that chat's unread counter to zero and changes nothing
    else in the chat store; for a chat id the store does not hold, the
    chat store is left as it was.  For an account that is unknown or not
    connected the command changes nothing and answers with an error. *)
Theorem get_messages_marks_read (dl : Msg.t -> option string)
        (accountId jid : string) (w : World.t) :
  (forall r account,
      find_account accountId w = Some (r, account) ->
      Account.connectionState account = connected ->
      exists account',
        World.deref r (fst (on_get_messages dl accountId jid w)) = Some account'
        /\ Account.chats account' =
           match map_get (JStr jid) (Account.chats account) with
           | Some chat => map_set (JStr jid) (mark_read chat) (Account.chats account)
           | None => Account.chats account
           end
        /\ (forall chat,
              map_get (JStr jid) (Account.chats account) = Some chat ->
              map_get (JStr jid) (Account.chats account') = Some (mark_read chat)
              /\ Chat.unreadCount (mark_read chat) = Some 0))
  /\ ((forall r account,
          find_account accountId w = Some (r, account) ->
          Account.connectionState account <> connected) ->
      on_get_messages dl accountId jid w = (w, not_connected)).
Proof.
  split.
  - intros r account F C. unfold on_get_messages. rewrite F, C. simpl ConnState_eqb.
    cbv iota zeta.
    pose proof (getContactInfo_frame account jid) as Fr.
    destruct (getContactInfo account jid) as [info account1].
    simpl in Fr. destruct Fr as (_ & _ & _ & _ & Fc & _).
    rewrite Fc. cbn [fst].
    eexists. split; [eapply deref_store, find_account_deref; eassumption|].
    destruct (map_get (JStr jid) (Account.chats account)) as [chat|] eqn:G.
    + split; [reflexivity|].
      intros chat' [= <-]. simpl. split; [apply map_get_set_same | reflexivity].
    + split; [assumption | discriminate].
  - intros H. unfold on_get_messages.
    destruct (find_account accountId w) as [[r account]|] eqn:F; [|reflexivity].
    specialize (H r account eq_refl).
    destruct (Account.connectionState account); try reflexivity. congruence.
Qed.

(** ** Terminal logout *)

Lemma fs_lookup_rm path fs : Fs.lookup path (Fs.rmSync path fs) = None.
Proof.
  unfold Fs.rmSync. induction fs as [|[p files] r IH]; simpl; [reflexivity|].
  destruct (String.eqb_spec path p) as [->|Hne]; simpl; [assumption|].
  destruct (String.eqb_spec path p); [contradiction | assumption].
Qed.

Lemma fs_lookup_app path fs fs' :
  Fs.lookup path fs = None -> Fs.lookup path (fs ++ fs') = Fs.lookup path fs'.
Proof.
  induction fs as [|[p files] r IH]; simpl; [reflexivity|].
  destruct (path =? p)%string; [discriminate | assumption].
Qed.

(** A folder removed and created again is empty. *)
Lemma fs_purged path fs :
  Fs.lookup path (Fs.mkdirSync path (Fs.rmSync path fs)) = Some [].
Proof.
  unfold Fs.mkdirSync, Fs.existsSync. rewrite fs_lookup_rm.
  rewrite fs_lookup_app by apply fs_lookup_rm.
  simpl. now rewrite String.eqb_refl.
Qed.

(** The explicit logout command, for a registered account with a
    session: the four stores are cleared, the phone number is forgotten,
    no credential file is left, and the registry file is rewritten from
    the accounts as they now are. *)
Lemma logout_account_purges accountId w r account s :
  find_account accountId w = Some (r, account) ->
  Account.sock account = Some s ->
  let w' := fst (on_logout_account accountId w) in
  exists account',
    World.deref r w' = Some account'
    /\ Account.chats account' = [] /\ Account.messages account' = []
    /\ Account.contacts account' = [] /\ Account.profilePics account' = []
    /\ Account.phoneNumber account' = JNull
    /\ (Fs.lookup (Account.authFolder account) (World.auth w') = Some []
        \/ Fs.lookup (Account.authFolder account) (World.auth w') = None)
    /\ World.accounts_file w' =
       Some (map (fun acc => Saved.mk (Account.id acc) (Account.name acc)
                               (Account.phoneNumber acc)) (World.values w')).
Proof.
  intros F S. unfold on_logout_account. rewrite F, S. cbv zeta. cbn [fst].
  pose proof (find_account_deref _ _ _ _ F) as D.
  eexists. split.
  - unfold saveAccountsToFile, World.set_accounts_file, World.deref. cbn [World.heap].
    destruct (Fs.existsSync _ _); cbn [World.heap World.set_auth World.store];
      eapply nth_error_update_nth, D.
  - cbn. repeat split.
    unfold Fs.existsSync.
    destruct (Fs.lookup (Account.authFolder account) (World.auth w)) eqn:L; cbn.
    + left. apply fs_purged.
    + right. exact L.
Qed.

(** The logged-out close, for any account object: credentials purged and
    phone number forgotten, the four stores untouched. *)
Lemma logged_out_close_stores loggedOut toDataURL sock r w account :
  World.deref r w = Some account ->
  let w' := fst (on_connection_update loggedOut toDataURL sock r
                   (logged_out_close loggedOut) w) in
  exists account',
    World.deref r w' = Some account'
    /\ Account.phoneNumber account' = JNull
    /\ Fs.lookup (Account.authFolder account) (World.auth w') = Some []
    /\ Account.chats account' = Account.chats account
    /\ Account.messages account' = Account.messages account
    /\ Account.contacts account' = Account.contacts account
    /\ Account.profilePics account' = Account.profilePics account.
Proof.
  intros D. unfold on_connection_update, logged_out_close. rewrite D. cbn.
  rewrite Z.eqb_refl. cbn.
  eexists. split.
  - unfold World.deref. cbn.
    eapply nth_error_update_nth, nth_error_update_nth, nth_error_update_nth, D.
  - cbn. repeat split. apply fs_purged.
Qed.

(** C2.  The failing path: a connection close with the logged-out code.
    The credential folder is emptied, the phone number is forgotten and
    the registry file is rewritten without it, but the chats, messages,
    contacts and cached pictures of the account all stay as they were. *)
Theorem logged_out_close_keeps_stores (loggedOut : Z) (toDataURL : string -> string) :
  let w' := fst (on_connection_update loggedOut toDataURL sample_sock 0
                   (logged_out_close loggedOut) (sample_world busy_account)) in
  exists account',
    World.deref 0 w' = Some account'
    /\ Fs.lookup "auth/acc_1" (World.auth w') = Some []
    /\ Account.phoneNumber account' = JNull
    /\ World.accounts_file w' = Some [Saved.mk "acc_1" "Conta acc_1" JNull]
    /\ Account.chats account' = Account.chats busy_account
    /\ Account.messages account' = Account.messages busy_account
    /\ Account.contacts account' = Account.contacts busy_account
    /\ Account.profilePics account' = Account.profilePics busy_account
    /\ Account.chats account' <> [] /\ Account.messages account' <> []
    /\ Account.contacts account' <> [] /\ Account.profilePics account' <> [].
Proof.
  unfold on_connection_update, logged_out_close. cbn.
  rewrite Z.eqb_refl. cbn.
  eexists. split; [reflexivity|].
  repeat split; discriminate.
Qed.

(** ** Duplicate message ids *)

Lemma store_message_messages a a' jid msg :
  Account.messages a' = Account.messages a ->
  Account.messages (store_message a' jid msg) = Account.messages (store_message a jid msg).
Proof. intros H. unfold store_message. cbv zeta. simpl. now rewrite H. Qed.

Lemma upsert_messages dl type account log msg :
  Account.messages (fst (messages_upsert_one dl type (account, log) msg))
  = Account.messages (store_message account (Msg.remoteJid (Msg.key msg)) msg).
Proof.
  unfold messages_upsert_one. cbv zeta.
  set (a0 := if truthy (Msg.pushName msg) && negb (Msg.fromMe (Msg.key msg))
             then _ else account).
  assert (H0 : Account.messages a0 = Account.messages account).
  { subst a0. destruct (_ && _); [|reflexivity].
    now destruct (negb (map_has _ _)). }
  destruct (negb (Msg.fromMe (Msg.key msg)) && _).
  - pose proof (getContactInfo_frame
                  (store_message a0 (Msg.remoteJid (Msg.key msg)) msg)
                  (Msg.remoteJid (Msg.key msg))) as Fr.
    destruct (getContactInfo _ (Msg.remoteJid (Msg.key msg))) as [info a2].
    pose proof (updateChatInList_once dl a2 (Msg.remoteJid (Msg.key msg)) msg) as [_ U].
    destruct (updateChatInList dl a2 (Msg.remoteJid (Msg.key msg)) msg) as [a3 emitted].
    cbn [fst snd] in *. destruct Fr as (_ & _ & _ & _ & _ & Fm & _).
    rewrite U, Fm. now apply store_message_messages.
  - cbn [fst]. now apply store_message_messages.
Qed.

(** The live path appends through the deduplicating store. *)
Lemma upsert_appends_once dl type account log msg :
  let account' := fst (messages_upsert_one dl type (account, log) msg) in
  let jid := Msg.remoteJid (Msg.key msg) in
  chat_log account' jid =
  if logged msg (chat_log account jid) then chat_log account jid
  else chat_log account jid ++ [msg].
Proof.
  cbv zeta. rewrite <- store_message_log.
  unfold chat_log at 1 2. now rewrite upsert_messages.
Qed.

Lemma history_messages account msg :
  Account.messages (history_message_one account msg)
  = Account.messages (store_message account (Msg.remoteJid (Msg.key msg)) msg).
Proof.
  unfold history_message_one. cbv zeta.
  apply store_message_messages.
  destruct (truthy (Msg.pushName msg)); [|reflexivity].
  destruct (negb (Msg.fromMe (Msg.key msg))); [|reflexivity].
  now destruct (_ || _).
Qed.

(** The history path appends through the deduplicating store. *)
Lemma history_appends_once account msg :
  let account' := history_message_one account msg in
  let jid := Msg.remoteJid (Msg.key msg) in
  chat_log account' jid =
  if logged msg (chat_log account jid) then chat_log account jid
  else chat_log account jid ++ [msg].
Proof.
  cbv zeta. rewrite <- store_message_log.
  unfold chat_log at 1 2. now rewrite history_messages.
Qed.

(** C4.  The failing path: the server's own message reaches the log
    through the live upsert, and [send-message] then pushes the message it
    sent without looking for its id.  The log holds the pair (chat id,
    message id) twice. *)
Theorem sent_push_duplicates :
  let stored := fst (on_messages_upsert no_media sample_account [outbound_1] append) in
  let w' := fst (on_send_message no_media "acc_1" ana_jid (send_ok outbound_1)
                   (sample_world stored)) in
  chat_log stored ana_jid = [outbound_1]
  /\ exists account',
       World.deref 0 w' = Some account'
       /\ chat_log account' ana_jid = [outbound_1; outbound_1].
Proof.
  cbv zeta. split; [reflexivity|].
  eexists. split; reflexivity.
Qed.

(** ** Instances *)

(** C1, as stated, fails: a live batch of two inbound messages emits two
    chat-list broadcasts. *)
Lemma live_batch_broadcasts_per_message :
  chats_broadcasts
    (snd (on_messages_upsert no_media sample_account [inbound_1; inbound_2] notify))
  = 2%nat.
Proof. vm_compute. reflexivity. Qed.

(** C3, as stated, fails: a later update that carries a notify name
    replaces the explicit name the directory held. *)
Lemma later_notify_overrides_explicit_name :
  let stored := contacts_upsert_one sample_account alice in
  resolveName stored ana_jid = JStr "Alice"
  /\ resolveName (contacts_update_one stored bob_notify) ana_jid = JStr "Bob".
Proof. vm_compute. split; reflexivity. Qed.

Lemma contact_merge_spec_witness :
  truthy (jsor (jsor (WAContact.name ana) (WAContact.notify ana))
            (WAContact.verifiedName ana)) = true
  /\ resolveName (contacts_upsert_one sample_account ana) "5511999@x" = JStr "Ana".
Proof.
  split; [reflexivity|].
  apply (proj1 (proj2 (proj2 (contact_merge_spec sample_account ana)))).
  reflexivity.
Defined.

(** C6, as stated, fails: [normalizeJid] answers [null], not the empty
    string, for [null], and keeps the device segment of an identifier
    that has no domain. *)
Lemma normalize_null_and_bare_device :
  normalizeJid JNull = JNull
  /\ JNull <> JStr ""
  /\ normalizeJid (JStr "5511999:12") = JStr "5511999:12@s.whatsapp.net".
Proof. repeat split. discriminate. Qed.

Lemma identity_resolver_total_witness :
  (lacks ":" "5511999" /\ "12" <> "" /\ all_digits "12" = true)
  /\ normalizeJid (JStr "5511999:12@s.whatsapp.net") = JStr "5511999@s.whatsapp.net"
  /\ getPhoneFromJid (JStr "5511999:12@s.whatsapp.net") = "5511999"
  /\ device_free "a:x"
  /\ normalizeJid (JStr "a:x:12@b") = JStr "a:x@b".
Proof.
  destruct identity_resolver_total
    as (_ & Hdevice & _ & _ & Hphone & _ & _ & Hleftmost & _).
  split; [repeat split; discriminate|].
  split.
  - apply (Hdevice "5511999" "12" "s.whatsapp.net");
      [reflexivity | discriminate | reflexivity].
  - split.
    + apply (Hphone "5511999" ":"%char "12@s.whatsapp.net");
        [now right | reflexivity | reflexivity].
    + assert (F : device_free "a:x") by (apply device_free_no_at; reflexivity).
      split; [exact F|].
      apply (Hleftmost "a:x" "12" "b"); [exact F | discriminate | reflexivity].
Defined.

(** C8, as stated, fails: with a limit of 0 the window is not empty. *)
Lemma zero_limit_returns_messages :
  fst (history_window no_media [message_now] sample_now 1 (Some 0))
  = [formatMessage no_media message_now false]
  /\ List.length (fst (history_window no_media [message_now] sample_now 1 (Some 0)))
     = 1%nat.
Proof. vm_compute. split; reflexivity. Qed.

(** The window is cut before it is sorted: from a log that is not in
    time order, a limit of 1 keeps the message stored last, here the
    older one. *)
Lemma window_cut_before_sorting :
  fst (history_window no_media [message_now; message_two_days_ago] sample_now 3 (Some 1))
  = [formatMessage no_media message_two_days_ago false].
Proof. vm_compute. reflexivity. Qed.

Lemma history_window_spec_witness :
  0 < window_size None
  /\ history_window no_media [message_now; message_two_days_ago] sample_now 1 None
     = ([formatMessage no_media message_now false], 1).
Proof.
  split; [reflexivity|].
  pose proof (history_window_spec no_media [message_now; message_two_days_ago]
                sample_now 1 None eq_refl) as H.
  cbv zeta in H. destruct H as (_ & _ & _ & _ & H).
  apply (H message_now message_two_days_ago); reflexivity.
Defined.

Lemma fallback_number_format_witness :
  unnamed sample_account "5511987654321@s.whatsapp.net"
  /\ ordinary "5511987654321@s.whatsapp.net"
  /\ resolveName sample_account "5511987654321@s.whatsapp.net"
     = JStr "(11) 98765-4321".
Proof.
  assert (U : unnamed sample_account "5511987654321@s.whatsapp.net") by reflexivity.
  assert (O : ordinary "5511987654321@s.whatsapp.net") by (repeat split).
  split; [exact U|]. split; [exact O|].
  apply (proj1 (fallback_number_format sample_account
                  "5511987654321@s.whatsapp.net" U O)).
  reflexivity.
Defined.

(** C10, as stated, fails: for an account that is not connected the
    command leaves the unread counter of a stored chat as it was. *)
Lemma get_messages_disconnected_keeps_unread :
  map_get (JStr ana_jid) (Account.chats idle_account) = Some sample_chat
  /\ Chat.unreadCount sample_chat = Some 3
  /\ on_get_messages no_media "acc_1" ana_jid (sample_world idle_account)
     = (sample_world idle_account, not_connected).
Proof. vm_compute. repeat split. Qed.

Lemma get_messages_marks_read_witness :
  find_account "acc_1" (sample_world busy_account) = Some (0%nat, busy_account)
  /\ Account.connectionState busy_account = connected
  /\ exists account',
       World.deref 0 (fst (on_get_messages no_media "acc_1" ana_jid
                             (sample_world busy_account))) = Some account'
       /\ map_get (JStr ana_jid) (Account.chats account') = Some (mark_read sample_chat).
Proof.
  split; [reflexivity|]. split; [reflexivity|].
  destruct (proj1 (get_messages_marks_read no_media "acc_1" ana_jid
                     (sample_world busy_account))
              0%nat busy_account eq_refl eq_refl) as (account' & D & _ & R).
  exists account'. split; [exact D|].
  apply (R sample_chat). reflexivity.
Defined.

(** * Further properties of the server *)

(** ** Identity resolution, continued *)

Lemma phone_replace_device s :
  before_char ":" (before_char "@" (replace_device s))
  = before_char ":" (before_char "@" s).
Proof.
  induction s as [|c s IH]; [reflexivity|].
  cbn [replace_device].
  destruct (Ascii.eqb_spec c ":") as [->|Hc].
  - destruct (match_device s); reflexivity.
  - cbn [before_char].
    destruct (Ascii.eqb "@" c); [reflexivity|].
    cbn [before_char].
    destruct (Ascii.eqb_spec ":" c) as [<-|_]; [contradiction|].
    now rewrite IH.
Qed.

Lemma phone_normalize (v : jsval) :
  getPhoneFromJid (normalizeJid v) = getPhoneFromJid v.
Proof.
  destruct v as [| |s]; try reflexivity.
  destruct s as [|c s]; [reflexivity|].
  rewrite normalizeJid_string by discriminate.
  destruct (includes_char "@" (replace_device (String c s))) eqn:E;
    rewrite !getPhoneFromJid_string.
  - apply phone_replace_device.
  - unfold default_domain. rewrite before_char_found by exact E.
    rewrite <- phone_replace_device.
    now rewrite (before_char_lacks "@" _ E).
Qed.

(** Normalizing an identifier never changes the phone number read from
    it: the raw and the canonical key of a contact agree on it. *)
Theorem phone_survives_normalization (v : jsval) :
  getPhoneFromJid (normalizeJid v) = getPhoneFromJid v.
Proof. apply phone_normalize. Qed.

(** ** The profile-picture cache *)

(** Once a picture has been looked up, found or not, every later lookup
    of the same identifier answers the same value and leaves the account
    as it is, whatever session the account then holds. *)
Theorem profile_picture_cached (account : Account.t) (jid : string)
        (session : option Sock.t) :
  let pic := fst (getProfilePicture account jid) in
  let account' := Account.set_sock session (snd (getProfilePicture account jid)) in
  getProfilePicture account' jid = (pic, account').
Proof.
  cbv zeta.
  destruct (getProfilePicture account jid) as [pic a'] eqn:E. cbn [fst snd].
  unfold getProfilePicture in E.
  destruct (map_has (JStr jid) (Account.profilePics account)) eqn:H.
  - injection E as <- <-. unfold getProfilePicture. cbn. now rewrite H.
  - destruct (match Account.sock account with
              | Some s => Sock.profilePictureUrl s jid
              | None => None
              end) as [url|]; injection E as <- <-;
      unfold getProfilePicture; cbn;
      now rewrite map_has_set, map_get_set_same.
Qed.

(** ** Message formatting *)

(** Formatting copies the message's id, direction, timestamp and sender
    name.  Without a request for media it never downloads: the payload is
    null and the result does not depend on what a download would give.
    With a request, only an image or an audio message carries a payload. *)
Theorem formatMessage_lazy_media (dl dl' : Msg.t -> option string) (msg : Msg.t) :
  (forall downloadMedia,
      let f := formatMessage dl msg downloadMedia in
      Formatted.id f = Msg.id (Msg.key msg)
      /\ Formatted.fromMe f = Msg.fromMe (Msg.key msg)
      /\ Formatted.timestamp f = Msg.messageTimestamp msg
      /\ Formatted.pushName f = Msg.pushName msg)
  /\ formatMessage dl msg false = formatMessage dl' msg false
  /\ Formatted.mediaData (formatMessage dl msg false) = None
  /\ (Formatted.mediaData (formatMessage dl msg true) <> None ->
      Formatted.type (formatMessage dl msg true) = image_t
      \/ Formatted.type (formatMessage dl msg true) = audio_t).
Proof.
  unfold formatMessage. cbv zeta.
  destruct (Msg.message msg) as [c|].
  2: { repeat split; try reflexivity. intros H. now contradiction H. }
  destruct (truthy (Content.conversation c)).
  { repeat split; try reflexivity. intros H. now contradiction H. }
  destruct (match Content.extendedTextMessage c with
            | Some t => truthy t
            | None => false
            end).
  { repeat split; try reflexivity. intros H. now contradiction H. }
  destruct (Content.imageMessage c).
  { repeat split; try reflexivity. intros _. now left. }
  destruct (Content.videoMessage c).
  { repeat split; try reflexivity. intros H. now contradiction H. }
  destruct (Content.audioMessage c).
  { repeat split; try reflexivity. intros _. now right. }
  destruct (Content.documentMessage c).
  { repeat split; try reflexivity. intros H. now contradiction H. }
  destruct (Content.stickerMessage c);
    repeat split; try reflexivity; intros H; now contradiction H.
Qed.

(** ** The chat store *)

(** The chat [updateChatInList] writes. *)
Lemma updateChatInList_chats dl account jid msg :
  let existing :=
    match map_get (JStr jid) (Account.chats account) with
    | Some c => c
    | None => Chat.mk jid JUndef None None None (Some 0)
    end in
  Account.chats (fst (updateChatInList dl account jid msg))
  = map_set (JStr jid)
      (Chat.mk (Chat.id existing) (Chat.name existing)
         (Some (formatMessage dl msg false)) (Some (Msg.messageTimestamp msg))
         (Chat.conversationTimestamp existing)
         (if negb (Msg.fromMe (Msg.key msg))
          then Some (num_or0 (Chat.unreadCount existing) + 1)
          else Chat.unreadCount existing))
      (Account.chats account).
Proof.
  cbv zeta. unfold updateChatInList. cbv zeta.
  match goal with
  | |- context [getFormattedChats ?a] =>
      pose proof (getFormattedChats_frame a) as Fr;
      destruct (getFormattedChats a) as [chats account']
  end.
  cbn [fst snd] in *. destruct Fr as (_ & _ & _ & _ & Fc & _). now rewrite Fc.
Qed.

Lemma string_key_other jid jid' : jid' <> jid -> jsval_eqb (JStr jid') (JStr jid) = false.
Proof. intros H. simpl. now apply String.eqb_neq. Qed.

Lemma activity_update dl account jid msg :
  unread (fst (updateChatInList dl account jid msg)) jid
  = unread account jid + (if Msg.fromMe (Msg.key msg) then 0 else 1).
Proof.
  unfold unread. rewrite updateChatInList_chats.
  rewrite map_get_set_same. cbn.
  destruct (map_get (JStr jid) (Account.chats account)) as [c|];
    destruct (Msg.fromMe (Msg.key msg)); cbn; lia.
Qed.

(** Recording a message as a chat's latest activity sets the chat's last
    message and timestamp from it, raises the unread counter by one when
    the message is inbound and leaves it when the message is the
    account's own, creates the chat when the store does not hold it, and
    touches no other chat. *)
Theorem activity_counts_unread (dl : Msg.t -> option string) (account : Account.t)
        (jid : string) (msg : Msg.t) :
  let account' := fst (updateChatInList dl account jid msg) in
  unread account' jid
  = unread account jid + (if Msg.fromMe (Msg.key msg) then 0 else 1)
  /\ (exists chat,
        map_get (JStr jid) (Account.chats account') = Some chat
        /\ Chat.lastMessage chat = Some (formatMessage dl msg false)
        /\ Chat.timestamp chat = Some (Msg.messageTimestamp msg))
  /\ (forall jid', jid' <> jid ->
        map_get (JStr jid') (Account.chats account')
        = map_get (JStr jid') (Account.chats account)).
Proof.
  cbv zeta. split; [apply activity_update|].
  rewrite updateChatInList_chats.
  split.
  - eexists. split; [apply map_get_set_same|]. now split.
  - intros jid' H. apply map_get_set_other. now apply string_key_other.
Qed.

Lemma upsert_chats dl type account log msg :
  Account.chats (fst (messages_upsert_one dl type (account, log) msg))
  = if negb (Msg.fromMe (Msg.key msg)) && is_notify type
    then Account.chats
           (fst (updateChatInList dl account (Msg.remoteJid (Msg.key msg)) msg))
    else Account.chats account.
Proof.
  unfold messages_upsert_one. cbv zeta.
  set (a0 := if truthy (Msg.pushName msg) && negb (Msg.fromMe (Msg.key msg))
             then _ else account).
  assert (H0 : Account.chats a0 = Account.chats account).
  { subst a0. destruct (_ && _); [|reflexivity].
    now destruct (negb (map_has _ _)). }
  replace (match type with notify => true | append => false end)
    with (is_notify type) by (now destruct type).
  destruct (negb (Msg.fromMe (Msg.key msg)) && is_notify type).
  - pose proof (getContactInfo_frame
                  (store_message a0 (Msg.remoteJid (Msg.key msg)) msg)
                  (Msg.remoteJid (Msg.key msg))) as Fr.
    destruct (getContactInfo _ (Msg.remoteJid (Msg.key msg))) as [info a2].
    cbn [fst snd] in Fr. destruct Fr as (_ & _ & _ & _ & Fc & _).
    pose proof (updateChatInList_chats dl a2 (Msg.remoteJid (Msg.key msg)) msg) as U.
    pose proof (updateChatInList_chats dl account (Msg.remoteJid (Msg.key msg)) msg) as V.
    cbv zeta in U, V.
    destruct (updateChatInList dl a2 (Msg.remoteJid (Msg.key msg)) msg) as [a3 out].
    cbn [fst] in *. rewrite U, V, Fc. unfold store_message. cbn. now rewrite H0.
  - cbn [fst]. unfold store_message. cbn. exact H0.
Qed.

(** Reading a chat and then receiving one live inbound message in it
    leaves the chat with exactly one unread message. *)
Theorem read_then_inbound_counts_one (dl : Msg.t -> option string)
        (accountId : string) (w : World.t) (r : nat) (account : Account.t)
        (msg : Msg.t) :
  find_account accountId w = Some (r, account) ->
  Account.connectionState account = connected ->
  Msg.fromMe (Msg.key msg) = false ->
  let jid := Msg.remoteJid (Msg.key msg) in
  exists account',
    World.deref r (fst (on_get_messages dl accountId jid w)) = Some account'
    /\ unread account' jid = 0
    /\ unread (fst (on_messages_upsert dl account' [msg] notify)) jid = 1.
Proof.
  intros F C I jid.
  unfold on_get_messages. rewrite F, C. cbn [ConnState_eqb]. cbv iota zeta.
  pose proof (getContactInfo_frame account jid) as Fr.
  destruct (getContactInfo account jid) as [info account1].
  cbn [fst snd] in Fr. destruct Fr as (_ & _ & _ & _ & Fc & _).
  cbn [fst]. eexists.
  split; [eapply deref_store, find_account_deref; eassumption|].
  assert (Z0 : forall a, unread a jid = 0 ->
               unread (fst (on_messages_upsert dl a [msg] notify)) jid = 1).
  { intros a Ha. unfold on_messages_upsert. cbn [fold_left].
    unfold unread. rewrite upsert_chats, I. cbn [negb is_notify andb].
    pose proof (activity_update dl a jid msg) as U. fold jid.
    unfold unread in *. rewrite U, I, Ha. reflexivity. }
  split; [|apply Z0]; unfold unread; rewrite Fc;
    (destruct (map_get (JStr jid) (Account.chats account)) as [c|] eqn:G; cbn;
     [now rewrite map_get_set_same | now rewrite Fc, G]).
Qed.

Lemma upsert_quiet dl type account log msg :
  negb (Msg.fromMe (Msg.key msg)) && is_notify type = false ->
  snd (messages_upsert_one dl type (account, log) msg) = log.
Proof.
  intros H. unfold messages_upsert_one. cbv zeta.
  replace (match type with notify => true | append => false end)
    with (is_notify type) by (now destruct type).
  now rewrite H.
Qed.

Lemma quiet_fold dl type msgs :
  Forall (fun msg => negb (Msg.fromMe (Msg.key msg)) && is_notify type = false) msgs ->
  forall account log,
    snd (fold_left (messages_upsert_one dl type) msgs (account, log)) = log
    /\ Account.chats (fst (fold_left (messages_upsert_one dl type) msgs (account, log)))
       = Account.chats account.
Proof.
  induction 1 as [|msg rest Hm _ IH]; intros account log; cbn [fold_left].
  - now split.
  - pose proof (upsert_quiet dl type account log msg Hm) as Q.
    pose proof (upsert_chats dl type account log msg) as C. rewrite Hm in C.
    destruct (messages_upsert_one dl type (account, log) msg) as [a1 l1].
    cbn [fst snd] in *. subst l1. rewrite <- C. apply IH.
Qed.

(** A message batch without a live inbound message (a replayed batch, or
    the account's own messages) notifies no observer and leaves the chat
    store as it was. *)
Theorem quiet_batches (dl : Msg.t -> option string) (account : Account.t)
        (newMessages : list Msg.t) (type : UpsertType) :
  Forall (fun msg => negb (Msg.fromMe (Msg.key msg)) && is_notify type = false)
    newMessages ->
  snd (on_messages_upsert dl account newMessages type) = []
  /\ Account.chats (fst (on_messages_upsert dl account newMessages type))
     = Account.chats account.
Proof. intros H. unfold on_messages_upsert. now apply quiet_fold. Qed.

Lemma map_set_keys_known {V : Type} (k : jsval) (v v0 : V) (m : jsmap V) :
  map_get k m = Some v0 -> map_keys (map_set k v m) = map_keys m.
Proof.
  unfold map_keys. induction m as [|[k' v'] r IH]; simpl; [discriminate|].
  destruct (jsval_eqb k k') eqn:E; [reflexivity|].
  intros H. simpl. now rewrite IH.
Qed.

Lemma chats_update_fold updates :
  forall account,
    let account' :=
      fold_left
        (fun account update =>
           match map_get (JStr (ChatUpdate.id update)) (Account.chats account) with
           | Some chat =>
               Account.set_chats
                 (map_set (JStr (ChatUpdate.id update)) (chat_assign chat update)
                    (Account.chats account)) account
           | None => account
           end) updates account in
    map_keys (Account.chats account') = map_keys (Account.chats account)
    /\ ((forall update, In update updates ->
           map_get (JStr (ChatUpdate.id update)) (Account.chats account) = None) ->
        account' = account).
Proof.
  induction updates as [|u rest IH]; intros account; cbn [fold_left].
  - now split.
  - cbv zeta in *. split.
    + rewrite (proj1 (IH _)).
      destruct (map_get (JStr (ChatUpdate.id u)) (Account.chats account)) eqn:G;
        [|reflexivity].
      cbn. eapply map_set_keys_known, G.
    + intros H. rewrite (H u (or_introl eq_refl)).
      apply IH. intros u' Hu'. apply H. now right.
Qed.

(** A chat incremental update never adds a chat: the store holds the same
    chat ids, in the same order, after the batch; and a batch whose ids
    are all unknown to the store changes nothing in it. *)
Theorem chats_update_never_adds (account : Account.t) (updates : list ChatUpdate.t) :
  let account' := fst (on_chats_update account updates) in
  map_keys (Account.chats account') = map_keys (Account.chats account)
  /\ ((forall update, In update updates ->
         map_get (JStr (ChatUpdate.id update)) (Account.chats account) = None) ->
      Account.chats account' = Account.chats account).
Proof.
  cbv zeta. unfold on_chats_update.
  match goal with
  | |- context [broadcast_chats ?a] =>
      pose proof (broadcast_chats_once a) as [_ Fr];
      destruct Fr as (_ & _ & _ & _ & Fc & _); rewrite !Fc
  end.
  pose proof (chats_update_fold updates account) as [K U]. cbv zeta in K, U.
  split; [exact K|]. intros H. now rewrite (U H).
Qed.

Lemma find_append {A : Type} (f : A -> bool) (l l' : list A) :
  find f (l ++ l') = match find f l with
                     | Some x => Some x
                     | None => find f l'
                     end.
Proof.
  induction l as [|x l IH]; simpl; [reflexivity|].
  now destruct (f x).
Qed.

Lemma map_get_set_string {V : Type} (id id' : string) (v : V) (m : jsmap V) :
  map_get (JStr id) (map_set (JStr id') v m)
  = if (id =? id')%string then Some v else map_get (JStr id) m.
Proof.
  destruct (String.eqb_spec id id') as [->|H].
  - apply map_get_set_same.
  - apply map_get_set_other. now apply string_key_other.
Qed.

Lemma chats_upsert_fold newChats :
  forall account id,
    map_get (JStr id)
      (Account.chats
         (fold_left
            (fun account chat =>
               Account.set_chats
                 (map_set (JStr (Chat.id chat)) chat (Account.chats account)) account)
            newChats account))
    = match find (fun chat => (id =? Chat.id chat)%string) (rev newChats) with
      | Some chat => Some chat
      | None => map_get (JStr id) (Account.chats account)
      end.
Proof.
  induction newChats as [|c rest IH]; intros account id; cbn [fold_left rev].
  - reflexivity.
  - rewrite IH, find_append. cbn.
    destruct (find _ (rev rest)); [reflexivity|].
    rewrite map_get_set_string. now destruct (id =? Chat.id c)%string.
Qed.

(** After a chat batch upsert the store holds, under every id the batch
    mentions, the last record the batch carries for it, and under every
    other id what it held before. *)
Theorem chats_upsert_lookup (account : Account.t) (newChats : list Chat.t)
        (id : string) :
  map_get (JStr id) (Account.chats (fst (on_chats_upsert account newChats)))
  = match find (fun chat => (id =? Chat.id chat)%string) (rev newChats) with
    | Some chat => Some chat
    | None => map_get (JStr id) (Account.chats account)
    end.
Proof.
  unfold on_chats_upsert.
  match goal with
  | |- context [broadcast_chats ?a] =>
      pose proof (broadcast_chats_once a) as [_ Fr];
      destruct Fr as (_ & _ & _ & _ & Fc & _); rewrite Fc
  end.
  apply chats_upsert_fold.
Qed.

(** ** Connection events *)

Lemma values_member accountId w r account :
  find_account accountId w = Some (r, account) -> In account (World.values w).
Proof.
  unfold find_account, World.values.
  destruct (map_get (JStr accountId) (World.accounts w)) as [r'|] eqn:G; [|discriminate].
  destruct (World.deref r' w) as [a|] eqn:D; [|discriminate].
  intros [= <- <-].
  apply in_flat_map. exists r'. split.
  - unfold map_values. clear D. revert G.
    induction (World.accounts w) as [|[k v] m IH]; cbn [map_get map snd];
      [discriminate|].
    destruct (jsval_eqb (JStr accountId) k); [intros [= ->]; now left | right; auto].
  - rewrite D. now left.
Qed.

(** A close for any reason other than the logged-out code is
    recoverable: the account becomes disconnected and one reconnection is
    scheduled for it, while its credentials, its phone number, its stores
    and the registry file stay as they were. *)
Theorem recoverable_close_keeps_session_data (loggedOut : Z)
        (toDataURL : string -> string) (sock : Sock.t) (r : nat) (w : World.t)
        (account : Account.t) (code : jsnum) :
  World.deref r w = Some account ->
  code <> Some loggedOut ->
  let w' := fst (on_connection_update loggedOut toDataURL sock r
                   (ConnUpdate.mk (Some conn_close) code JUndef) w) in
  World.deref r w' = Some (Account.set_connectionState disconnected account)
  /\ World.auth w' = World.auth w
  /\ World.accounts_file w' = World.accounts_file w
  /\ World.accounts w' = World.accounts w
  /\ World.reconnects w' = World.reconnects w ++ [r].
Proof.
  intros D Hc. unfold on_connection_update. rewrite D. cbn.
  assert (S : match code with
              | Some c => negb (c =? loggedOut)
              | None => true
              end = true).
  { destruct code as [c|]; [|reflexivity].
    destruct (Z.eqb_spec c loggedOut); [congruence | reflexivity]. }
  rewrite S. cbn. repeat split.
  unfold World.deref. cbn. eapply nth_error_update_nth, nth_error_update_nth, D.
Qed.

Lemma identity_phone_free v :
  lacks "@" (getPhoneFromJid v) /\ lacks ":" (getPhoneFromJid v).
Proof.
  destruct v as [| |s]; try (split; reflexivity).
  rewrite getPhoneFromJid_string. split.
  - apply before_char_keeps_free, before_char_is_free.
  - apply before_char_is_free.
Qed.

Lemma getContactInfo_qr account jid :
  Account.qrCodeData (snd (getContactInfo account jid)) = Account.qrCodeData account.
Proof.
  unfold getContactInfo. cbv zeta.
  set (step := if negb (truthy (lookup_name account jid)) then _ else _).
  assert (F : Account.qrCodeData (snd step) = Account.qrCodeData account).
  { subst step.
    destruct (negb (truthy (lookup_name account jid))); [|reflexivity].
    destruct (endsWith jid "@g.us").
    - now destruct (match Account.sock account with
                    | Some s => Sock.groupMetadata s jid
                    | None => None
                    end).
    - destruct (endsWith jid "@lid"); [reflexivity|].
      now destruct (endsWith jid "@newsletter"). }
  destruct step as [nm a0]. cbn [snd] in F. rewrite <- F.
  unfold getProfilePicture.
  destruct (map_has (JStr jid) (Account.profilePics a0)); [reflexivity|].
  now destruct (match Account.sock a0 with
                | Some s => Sock.profilePictureUrl s jid
                | None => None
                end).
Qed.

Lemma getFormattedChats_qr account :
  Account.qrCodeData (snd (getFormattedChats account)) = Account.qrCodeData account.
Proof.
  unfold getFormattedChats. cbv zeta.
  assert (G : forall l a f,
             Account.qrCodeData (snd (format_chats a l f)) = Account.qrCodeData a).
  { induction l as [|chat rest IH]; intros a f; cbn [format_chats]; [reflexivity|].
    destruct (_ && _); [apply IH|].
    pose proof (getContactInfo_qr a (Chat.id chat)) as Q.
    destruct (getContactInfo a (Chat.id chat)) as [info a'].
    cbn [snd] in Q. rewrite <- Q. apply IH. }
  specialize (G (map_values (Account.chats account)) account []).
  now destruct (format_chats account (map_values (Account.chats account)) []).
Qed.

Lemma loadChats_frame account :
  only_caches account (fst (loadChatsForAccount account))
  /\ Account.qrCodeData (fst (loadChatsForAccount account)) = Account.qrCodeData account.
Proof.
  unfold loadChatsForAccount.
  destruct (Account.sock account) as [s|]; [|split; [apply only_caches_refl | reflexivity]].
  destruct (Sock.groupFetchAllParticipating s);
    [|split; [apply only_caches_refl | reflexivity]].
  unfold broadcast_chats.
  pose proof (getFormattedChats_frame account) as Fr.
  pose proof (getFormattedChats_qr account) as Q.
  destruct (getFormattedChats account) as [chats a']. now split.
Qed.

(** When the connection opens with a known user id, the account becomes
    connected, its pending pairing code is dropped, its phone number is
    the one read from the session's user id, with no domain or device
    part, and the registry file written then lists a registered account
    with that number. *)
Theorem open_records_phone_number (loggedOut : Z) (toDataURL : string -> string)
        (sock : Sock.t) (r : nat) (w : World.t) (account : Account.t)
        (code : jsnum) :
  World.deref r w = Some account ->
  truthy (Sock.user_id sock) = true ->
  let w' := fst (on_connection_update loggedOut toDataURL sock r
                   (ConnUpdate.mk (Some conn_open) code JUndef) w) in
  let phone := getPhoneFromJid (Sock.user_id sock) in
  lacks "@" phone /\ lacks ":" phone
  /\ exists account' data,
       World.deref r w' = Some account'
       /\ Account.connectionState account' = connected
       /\ Account.qrCodeData account' = None
       /\ Account.phoneNumber account' = JStr phone
       /\ World.accounts_file w' = Some data
       /\ (forall accountId,
             find_account accountId w = Some (r, account) ->
             In (Saved.mk (Account.id account) (Account.name account) (JStr phone))
                data).
Proof.
  intros D T. cbv zeta.
  destruct identity_phone_free with (v := Sock.user_id sock) as [P1 P2].
  split; [exact P1|]. split; [exact P2|].
  unfold on_connection_update. rewrite D. cbn. rewrite T.
  set (a1 := Account.set_phoneNumber _ _).
  set (w1 := saveAccountsToFile _).
  pose proof (loadChats_frame a1) as [Fr Fq].
  destruct (loadChatsForAccount a1) as [a2 out].
  cbn [fst snd] in *. destruct Fr as (_ & _ & _ & Fs & _ & _ & _ & _ & Fp).
  exists a2. eexists.
  split.
  { unfold World.deref. subst w1. cbn.
    eapply nth_error_update_nth, nth_error_update_nth, nth_error_update_nth,
      nth_error_update_nth, D. }
  split; [now rewrite Fs|].
  split; [now rewrite Fq|].
  split; [now rewrite Fp|].
  split; [reflexivity|].
  intros accountId F.
  change (Saved.mk (Account.id account) (Account.name account)
            (JStr (getPhoneFromJid (Sock.user_id sock))))
    with ((fun acc => Saved.mk (Account.id acc) (Account.name acc)
                        (Account.phoneNumber acc)) a1).
  apply in_map.
  apply (values_member accountId _ r).
  unfold find_account in *. cbn.
  destruct (map_get (JStr accountId) (World.accounts w)) as [r'|]; [|discriminate].
  destruct (World.deref r' w) as [a|] eqn:D'; [|discriminate].
  injection F as -> ->.
  unfold World.deref. cbn.
  now rewrite (nth_error_update_nth _ _ _ _
                 (nth_error_update_nth _ _ _ _
                    (nth_error_update_nth _ _ _ _ D))).
Qed.

(** ** The registry *)

Lemma map_set_fresh {V : Type} (k : jsval) (v : V) (m : jsmap V) :
  map_get k m = None -> map_set k v m = m ++ [(k, v)].
Proof.
  induction m as [|[k' v'] r IH]; simpl; [reflexivity|].
  destruct (jsval_eqb k k'); [discriminate|].
  intros H. now rewrite IH.
Qed.

Lemma map_get_combine_none (keys : list jsval) (refs : list nat) k :
  ~ In k keys -> map_get k (combine keys refs) = None.
Proof.
  revert refs. induction keys as [|k' keys IH]; intros [|r refs] H; simpl; try reflexivity.
  destruct (jsval_eqb k k') eqn:E.
  - apply jsval_eqb_eq in E. subst. contradiction H. now left.
  - apply IH. intros Hin. apply H. now right.
Qed.

Lemma deref_all (pre h : list Account.t) :
  flat_map (fun r => match nth_error (pre ++ h) r with
                     | Some a => [a]
                     | None => []
                     end) (seq (List.length pre) (List.length h)) = h.
Proof.
  revert pre. induction h as [|a h IH]; intros pre; [reflexivity|].
  cbn [List.length seq flat_map].
  rewrite nth_error_app2, Nat.sub_diag by lia. cbn [nth_error app].
  f_equal.
  replace (pre ++ a :: h) with ((pre ++ [a]) ++ h) by now rewrite <- app_assoc.
  replace (S (List.length pre)) with (List.length (pre ++ [a]))
    by (rewrite length_app; simpl; lia).
  apply IH.
Qed.

Lemma registry_values heap auth file timers :
  World.values (World.mk heap (registry_of heap) auth file timers) = heap.
Proof.
  unfold World.values, World.deref, registry_of, map_values. cbn.
  assert (S : map snd (combine (map (fun a => JStr (Account.id a)) heap)
                         (seq 0 (List.length heap))) = seq 0 (List.length heap)).
  { assert (G : forall (ks : list jsval) (rs : list nat),
               List.length ks = List.length rs -> map snd (combine ks rs) = rs).
    { induction ks as [|k ks IH]; intros [|x rs] H; simpl in *; try discriminate;
        [reflexivity|]. f_equal. apply IH. lia. }
    apply G. now rewrite length_map, length_seq. }
  rewrite S. apply (deref_all [] heap).
Qed.

Lemma registry_lookup heap :
  forall start a,
    NoDup (map Account.id heap) -> In a heap ->
    exists r,
      map_get (JStr (Account.id a))
        (combine (map (fun a => JStr (Account.id a)) heap)
           (seq start (List.length heap))) = Some (start + r)%nat
      /\ nth_error heap r = Some a.
Proof.
  induction heap as [|b heap IH]; intros start a N I; [contradiction|].
  cbn [map List.length seq combine map_get].
  inversion N as [|x l Hx Hn]; subst.
  destruct I as [->|I].
  - exists 0%nat. rewrite jsval_eqb_refl. split; [f_equal; lia | reflexivity].
  - destruct (jsval_eqb (JStr (Account.id a)) (JStr (Account.id b))) eqn:E.
    + apply jsval_eqb_eq in E. injection E as E.
      contradiction Hx. rewrite <- E. now apply in_map.
    + destruct (IH (S start) a Hn I) as (r & G & D).
      exists (S r). split; [rewrite G; f_equal; lia | exact D].
Qed.

Lemma combine_append {A B : Type} (l1 l2 : list A) (r1 r2 : list B) :
  List.length l1 = List.length r1 ->
  combine (l1 ++ l2) (r1 ++ r2) = combine l1 r1 ++ combine l2 r2.
Proof.
  revert r1. induction l1 as [|a l1 IH]; intros [|b r1] H; simpl in *;
    try discriminate; [reflexivity|].
  f_equal. apply IH. lia.
Qed.

Lemma load_fold AUTH path_join data :
  forall heap auth file timers,
    NoDup (map Account.id heap ++ map Saved.id data) ->
    fold_left (load_one AUTH path_join) data
      (World.mk heap (registry_of heap) auth file timers)
    = let heap' :=
        heap ++ map (fun rec => Account.set_phoneNumber (Saved.phoneNumber rec)
                                  (new_Account AUTH path_join (Saved.id rec)
                                     (JStr (Saved.name rec)))) data in
      World.mk heap' (registry_of heap') auth file timers.
Proof.
  induction data as [|rec data IH]; intros heap auth file timers N; cbn [fold_left map].
  - cbv zeta. now rewrite app_nil_r.
  - cbv zeta. unfold load_one at 2. cbv zeta. unfold world_alloc, world_set_accounts.
    cbn [World.heap World.accounts World.auth World.accounts_file World.reconnects].
    set (a := Account.set_phoneNumber _ _).
    assert (Fresh : map_get (JStr (Saved.id rec)) (registry_of heap) = None).
    { unfold registry_of. apply map_get_combine_none.
      intros Hin. apply in_map_iff in Hin as (b & Hb & Hin). injection Hb as Hb.
      apply NoDup_remove_2 in N. apply N. apply in_or_app. left.
      rewrite <- Hb. now apply in_map. }
    rewrite (map_set_fresh _ _ _ Fresh).
    assert (R : registry_of heap ++ [(JStr (Saved.id rec), List.length heap)]
                = registry_of (heap ++ [a])).
    { unfold registry_of. rewrite map_app, length_app. cbn [List.length map].
      rewrite Nat.add_1_r, seq_S. cbn [Nat.add].
      rewrite combine_append by now rewrite length_map, length_seq. reflexivity. }
    rewrite R, IH.
    + cbv zeta. now rewrite <- app_assoc.
    + rewrite map_app. cbn [map]. rewrite <- app_assoc. cbn [app].
      subst a. cbn [Account.id Account.set_phoneNumber new_Account].
      exact N.
Qed.

(** Saving the registry and loading it in a new process restores every
    account whose ids are distinct: same id and phone number, same name
    unless the name was empty (then the default name), findable under its
    id, and otherwise as new: disconnected, without session or stores. *)
Theorem save_load_round_trip (AUTH : string) (path_join : string -> string -> string)
        (w : World.t) (auth : Fs.t) :
  NoDup (map Account.id (World.values w)) ->
  let file := World.accounts_file (saveAccountsToFile w) in
  let w' := loadAccountsFromFile AUTH path_join (fresh_process auth file) in
  World.values w' = map (restart_of AUTH path_join) (World.values w)
  /\ (forall a, In a (World.values w) ->
        exists r, find_account (Account.id a) w' = Some (r, restart_of AUTH path_join a)).
Proof.
  intros N. cbv zeta.
  unfold loadAccountsFromFile, fresh_process, saveAccountsToFile.
  cbn [World.accounts_file World.set_accounts_file].
  change (@nil (jsval * nat)) with (registry_of []).
  rewrite load_fold.
  2: { cbn [map app]. rewrite map_map. cbn. exact N. }
  cbv zeta. cbn [app]. rewrite map_map.
  assert (E : map (fun x => Account.set_phoneNumber
                              (Saved.phoneNumber
                                 (Saved.mk (Account.id x) (Account.name x)
                                    (Account.phoneNumber x)))
                              (new_Account AUTH path_join
                                 (Saved.id (Saved.mk (Account.id x) (Account.name x)
                                              (Account.phoneNumber x)))
                                 (JStr (Saved.name
                                          (Saved.mk (Account.id x) (Account.name x)
                                             (Account.phoneNumber x))))))
                (World.values w)
              = map (restart_of AUTH path_join) (World.values w)).
  { apply map_ext. intros a. unfold restart_of, new_Account, str_or. cbn.
    now destruct (Account.name a =? "")%string. }
  rewrite E. split; [apply registry_values|].
  intros a I.
  destruct (registry_lookup (map (restart_of AUTH path_join) (World.values w)) 0
              (restart_of AUTH path_join a)) as (r & G & D).
  - rewrite map_map. cbn. exact N.
  - now apply in_map.
  - exists r. unfold find_account, World.deref.
    cbn [World.accounts World.heap]. unfold registry_of.
    cbn [restart_of Account.id] in G. rewrite G. cbn. now rewrite D.
Qed.

Lemma nth_error_update_other {A : Type} (l : list A) n m x :
  n <> m -> nth_error (World.update_nth n x l) m = nth_error l m.
Proof.
  revert n m. induction l as [|a l IH]; intros [|n] [|m] H; simpl; try reflexivity.
  - contradiction.
  - apply IH. lia.
Qed.

Lemma map_get_delete_same {V : Type} k (m : jsmap V) : map_get k (map_delete k m) = None.
Proof.
  unfold map_delete. induction m as [|[k' v] r IH]; simpl; [reflexivity|].
  destruct (jsval_eqb k k') eqn:E; simpl; [assumption | now rewrite E].
Qed.

Lemma map_get_delete_other {V : Type} k k' (m : jsmap V) :
  jsval_eqb k' k = false -> map_get k' (map_delete k m) = map_get k' m.
Proof.
  intros H. unfold map_delete. induction m as [|[k0 v] r IH]; simpl; [reflexivity|].
  destruct (jsval_eqb k k0) eqn:E; simpl.
  - apply jsval_eqb_eq in E. subst k0. now rewrite H.
  - now rewrite IH.
Qed.

Lemma find_account_registered accountId w r account :
  find_account accountId w = Some (r, account) ->
  map_get (JStr accountId) (World.accounts w) = Some r
  /\ World.deref r w = Some account.
Proof.
  unfold find_account.
  destruct (map_get (JStr accountId) (World.accounts w)) as [r'|]; [|discriminate].
  destruct (World.deref r' w) as [a|] eqn:D; [|discriminate].
  intros [= <- <-]. now split.
Qed.

Lemma find_account_intro accountId w r account :
  map_get (JStr accountId) (World.accounts w) = Some r ->
  World.deref r w = Some account ->
  find_account accountId w = Some (r, account).
Proof. intros G D. unfold find_account. now rewrite G, D. Qed.

(** Creating an account under an id the registry does not hold registers
    a new account object: disconnected, without session, stores or phone
    number, named as asked or by default.  Every account registered
    before is found as before, the registry file lists the new account,
    and the command answers the requester and broadcasts the account
    list once. *)
Theorem create_account_registers (AUTH : string)
        (path_join : string -> string -> string) (id : string) (name : jsval)
        (w : World.t) :
  map_get (JStr id) (World.accounts w) = None ->
  let w' := fst (on_create_account AUTH path_join id name w) in
  let account := new_Account AUTH path_join id name in
  find_account id w' = Some (List.length (World.heap w), account)
  /\ Account.name account
     = (if truthy name then str_of name else ("Conta " ++ id)%string)
  /\ (forall id' r a, find_account id' w = Some (r, a) ->
        find_account id' w' = Some (r, a))
  /\ (exists data, World.accounts_file w' = Some data /\ In (saved_of account) data)
  /\ World.auth w' = World.auth w
  /\ snd (on_create_account AUTH path_join id name w)
     = [account_created id name;
        notice (io_emit (accounts_update (getAccountsList w')))].
Proof.
  intros Fresh. cbv zeta. unfold on_create_account, world_alloc, world_set_accounts.
  cbn [fst snd World.heap World.accounts World.auth World.accounts_file
         World.reconnects saveAccountsToFile World.set_accounts_file].
  set (account := new_Account AUTH path_join id name).
  set (w1 := World.mk (World.heap w ++ [account]) _ _ _ _).
  assert (F : find_account id w1 = Some (List.length (World.heap w), account)).
  { apply find_account_intro; subst w1; cbn.
    - apply map_get_set_same.
    - unfold World.deref. cbn. rewrite nth_error_app2, Nat.sub_diag by lia. reflexivity. }
  split; [exact F|].
  split; [reflexivity|].
  split.
  { intros id' r a Fa. apply find_account_registered in Fa as [G D].
    apply find_account_intro; cbn.
    - rewrite map_get_set_other; [exact G|].
      destruct (jsval_eqb (JStr id') (JStr id)) eqn:E; [|reflexivity].
      apply jsval_eqb_eq in E. injection E as ->. congruence.
    - unfold World.deref in *. cbn. rewrite nth_error_app1; [exact D|].
      apply nth_error_Some. congruence. }
  split.
  { eexists. split; [reflexivity|].
    change (saved_of account)
      with ((fun acc => Saved.mk (Account.id acc) (Account.name acc)
                          (Account.phoneNumber acc)) account).
    apply in_map. exact (values_member id w1 _ account F). }
  split; reflexivity.
Qed.

(** Renaming an account the registry does not hold does nothing and
    notifies no one.  Renaming a registered account changes its name and
    nothing else of it, rewrites the registry file with the new name, and
    leaves every other account object as it was. *)
Theorem rename_account_effect (accountId name : string) (w : World.t) :
  (find_account accountId w = None -> on_rename_account accountId name w = (w, []))
  /\ (forall r account,
        find_account accountId w = Some (r, account) ->
        let w' := fst (on_rename_account accountId name w) in
        find_account accountId w' = Some (r, account_set_name name account)
        /\ (exists data,
              World.accounts_file w' = Some data
              /\ In (Saved.mk (Account.id account) name (Account.phoneNumber account))
                    data)
        /\ World.auth w' = World.auth w
        /\ (forall r', r' <> r -> World.deref r' w' = World.deref r' w)).
Proof.
  split.
  - intros F. unfold on_rename_account. now rewrite F.
  - intros r account F. cbv zeta. unfold on_rename_account. rewrite F.
    cbn [fst saveAccountsToFile World.set_accounts_file].
    apply find_account_registered in F as [G D].
    set (w1 := World.store r (account_set_name name account) w).
    assert (F1 : find_account accountId w1 = Some (r, account_set_name name account)).
    { apply find_account_intro; [exact G | eapply deref_store, D]. }
    split; [apply find_account_intro; [exact G | eapply deref_store, D]|].
    split.
    { eexists. split; [reflexivity|].
      change (Saved.mk (Account.id account) name (Account.phoneNumber account))
        with ((fun acc => Saved.mk (Account.id acc) (Account.name acc)
                            (Account.phoneNumber acc)) (account_set_name name account)).
      apply in_map. exact (values_member accountId w1 r _ F1). }
    split; [reflexivity|].
    intros r' Hr. unfold World.deref. cbn. now apply nth_error_update_other.
Qed.

Lemma delete_registered accountId w r account :
  find_account accountId w = Some (r, account) ->
  let w' := fst (on_delete_account accountId w) in
  find_account accountId w' = None
  /\ Fs.lookup (Account.authFolder account) (World.auth w') = None
  /\ World.deref r w' = Some (Account.set_sock None account)
  /\ (forall r', r' <> r -> World.deref r' w' = World.deref r' w)
  /\ (forall id', id' <> accountId ->
        map_get (JStr id') (World.accounts w')
        = map_get (JStr id') (World.accounts w)).
Proof.
  intros F. cbv zeta. unfold on_delete_account. rewrite F.
apply find_account_registered in F as [G D].
set (a1 := match Account.sock account with
           | Some _ => Account.set_sock None account
           | None => account
           end).
assert (E1 : a1 = Account.set_sock None account).
{ subst a1. destruct account as [? ? [s|] ? ? ? ? ? ? ? ? ?]; reflexivity. }
assert (Ef : Account.authFolder a1 = Account.authFolder account)
  by (rewrite E1; reflexivity).
rewrite Ef. cbn [fst].
match goal with
| |- find_account _ ?x = _ /\ _ => set (w' := x)
end.
assert (HA : World.accounts w' = map_delete (JStr accountId) (World.accounts w))
  by (subst w'; destruct (Fs.existsSync _ _); reflexivity).
assert (HH : World.heap w' = World.update_nth r a1 (World.heap w))
  by (subst w'; destruct (Fs.existsSync _ _); reflexivity).
assert (HF : Fs.lookup (Account.authFolder account) (World.auth w') = None).
{ subst w'. unfold Fs.existsSync.
  destruct (Fs.lookup (Account.authFolder account) (World.auth (World.store r a1 w)))
    eqn:L; cbn; [apply fs_lookup_rm | exact L]. }
split; [unfold find_account; now rewrite HA, map_get_delete_same|].
split; [exact HF|].
split; [rewrite <- E1; unfold World.deref; rewrite HH;
        eapply nth_error_update_nth, D|].
split.
{ intros r' Hr. unfold World.deref. rewrite HH. now apply nth_error_update_other. }
intros id' Hid. rewrite HA.
apply map_get_delete_other. now apply string_key_other.
Qed.

(** Deleting an account the registry does not hold does nothing and
    notifies no one.  Deleting a registered account removes it from the
    registry and removes its credential folder; its object stays on the
    heap without a session, and every other account object and every
    other registration is as it was. *)
Theorem delete_account_effect (accountId : string) (w : World.t) :
  (find_account accountId w = None -> on_delete_account accountId w = (w, []))
  /\ (forall r account,
        find_account accountId w = Some (r, account) ->
        let w' := fst (on_delete_account accountId w) in
        find_account accountId w' = None
        /\ Fs.lookup (Account.authFolder account) (World.auth w') = None
        /\ World.deref r w' = Some (Account.set_sock None account)
        /\ (forall r', r' <> r -> World.deref r' w' = World.deref r' w)
        /\ (forall id', id' <> accountId ->
              map_get (JStr id') (World.accounts w')
              = map_get (JStr id') (World.accounts w))).
Proof.
  split.
  - intros F. unfold on_delete_account. now rewrite F.
  - intros r account F. now apply delete_registered.
Qed.

Lemma logged_out_close_registry loggedOut toDataURL sock r w :
  World.accounts (fst (on_connection_update loggedOut toDataURL sock r
                         (logged_out_close loggedOut) w))
  = World.accounts w.
Proof.
  unfold on_connection_update, logged_out_close.
  destruct (World.deref r w); [|reflexivity].
  cbn. rewrite Z.eqb_refl. reflexivity.
Qed.

Lemma delete_unregisters accountId w r account :
  find_account accountId w = Some (r, account) ->
  map_get (JStr accountId) (World.accounts (fst (on_delete_account accountId w))) = None.
Proof.
  intros F. unfold on_delete_account. rewrite F. cbn [fst].
  destruct (Fs.existsSync _ _);
    unfold saveAccountsToFile, World.set_accounts_file, world_set_accounts;
    cbn [World.accounts]; apply map_get_delete_same.
Qed.

(** The handlers of a deleted account keep their account object.  When
    the logged-out close of its session is handled after the delete
    command, the account stays unregistered, but the credential folder
    the command removed exists again, empty. *)
Theorem deleted_account_folder_returns (loggedOut : Z) (toDataURL : string -> string)
        (sock : Sock.t) (accountId : string) (w : World.t) (r : nat)
        (account : Account.t) :
  find_account accountId w = Some (r, account) ->
  let w1 := fst (on_delete_account accountId w) in
  let w2 := fst (on_connection_update loggedOut toDataURL sock r
                   (logged_out_close loggedOut) w1) in
  Fs.lookup (Account.authFolder account) (World.auth w1) = None
  /\ find_account accountId w2 = None
  /\ Fs.lookup (Account.authFolder account) (World.auth w2) = Some [].
Proof.
  intros F. cbv zeta.
  destruct (delete_registered accountId w r account F) as (N & L & D & _).
  cbv zeta in *. split; [exact L|].
  split.
  - unfold find_account. rewrite logged_out_close_registry.
    now rewrite (delete_unregisters accountId w r account F).
  - destruct (logged_out_close_stores loggedOut toDataURL sock r _ _ D)
      as (a' & _ & _ & Lk & _).
    exact Lk.
Qed.

(** ** Starting a chat *)

Lemma only_digits_all s : all_digits (only_digits s) = true.
Proof.
  induction s as [|c s IH]; [reflexivity|]. simpl.
  destruct (is_digit c) eqn:E; [simpl; now rewrite E | assumption].
Qed.

Lemma only_digits_fixed s : all_digits s = true -> only_digits s = s.
Proof.
  induction s as [|c s IH]; [reflexivity|]. simpl.
  intros H. apply andb_true_iff in H as [Hc Hs]. rewrite Hc. now rewrite IH.
Qed.

(** The number a chat is started with holds digits only, either starts
    with the country code 55 or is longer than 11 digits, and is a fixed
    point: dialling a dialled number changes nothing. *)
Theorem dial_number_canonical (phoneNumber : string) :
  all_digits (dial_number phoneNumber) = true
  /\ (startsWith (dial_number phoneNumber) "55" = true
      \/ (11 < String.length (dial_number phoneNumber))%nat)
  /\ dial_number (dial_number phoneNumber) = dial_number phoneNumber.
Proof.
  unfold dial_number. cbv zeta.
  pose proof (only_digits_all phoneNumber) as D.
  set (number := only_digits phoneNumber) in *.
  destruct (startsWith number "55") eqn:P; cbn [negb andb].
  - rewrite only_digits_fixed by exact D. rewrite P. cbn [negb andb].
    split; [exact D|]. split; [now left | reflexivity].
  - destruct (Nat.leb_spec (String.length number) 11) as [L|L].
    + assert (D' : all_digits ("55" ++ number) = true) by (cbn; exact D).
      assert (P' : startsWith ("55" ++ number) "55" = true).
      { unfold startsWith. cbn. destruct number; reflexivity. }
      rewrite only_digits_fixed by exact D'. rewrite P'. cbn [negb andb].
      split; [exact D'|]. split; [now left | reflexivity].
    + rewrite only_digits_fixed by exact D. rewrite P. cbn [negb andb].
      split; [exact D|]. split; [now right|].
      destruct (Nat.leb_spec (String.length number) 11); [lia | reflexivity].
Qed.

(** Starting a chat needs a registered, connected account: otherwise
    nothing changes and the requester gets an error.  The gateway is
    asked about the dialled number only.  When the gateway knows the
    number, the requester alone is told the chat is ready, with the name
    the directory resolves for the gateway's identifier. *)
Theorem start_new_chat_spec (accountId phoneNumber : string)
        (onWhatsApp : string -> option (list OnWhatsApp.t)) (w : World.t) :
  ((forall r account, find_account accountId w = Some (r, account) ->
                      Account.connectionState account <> connected) ->
   on_start_new_chat accountId phoneNumber onWhatsApp w
   = (w, [notice (socket_emit (error_ev "Conta não conectada"))]))
  /\ (forall onWhatsApp',
        onWhatsApp' (dial_number phoneNumber) = onWhatsApp (dial_number phoneNumber) ->
        on_start_new_chat accountId phoneNumber onWhatsApp' w
        = on_start_new_chat accountId phoneNumber onWhatsApp w)
  /\ (forall r account session result others,
        find_account accountId w = Some (r, account) ->
        Account.connectionState account = connected ->
        Account.sock account = Some session ->
        onWhatsApp (dial_number phoneNumber) = Some (result :: others) ->
        OnWhatsApp.found result = true ->
        snd (on_start_new_chat accountId phoneNumber onWhatsApp w)
        = [new_chat_ready accountId (OnWhatsApp.jid result)
             (resolveName account (OnWhatsApp.jid result))
             (Info.profilePic (fst (getContactInfo account (OnWhatsApp.jid result))))]).
Proof.
  split; [|split].
  - intros H. unfold on_start_new_chat.
    destruct (find_account accountId w) as [[r account]|] eqn:F; [|reflexivity].
    specialize (H r account eq_refl).
    destruct (Account.connectionState account); try reflexivity. congruence.
  - intros o' E. unfold on_start_new_chat. cbv zeta. now rewrite E.
  - intros r account session result others F C S O Fd.
    unfold on_start_new_chat, resolveName. cbv zeta.
    rewrite F, C, S, O, Fd. cbn [ConnState_eqb negb].
    now destruct (getContactInfo account (OnWhatsApp.jid result)).
Qed.

(** ** Reading and sending messages *)

Lemma updateChatInList_emits dl account jid msg :
  exists chats,
    snd (updateChatInList dl account jid msg)
    = [io_emit (chats_update (Account.id account) chats)].
Proof.
  unfold updateChatInList. cbv zeta.
  match goal with
  | |- context [getFormattedChats ?a] =>
      pose proof (getFormattedChats_frame a) as Fr;
      destruct (getFormattedChats a) as [chats account']
  end.
  cbn [fst snd] in *. destruct Fr as (Fi & _). exists chats. now rewrite Fi.
Qed.


(** For a registered, connected account a fetch-messages command
    answers the requester alone, with every stored message of the chat,
    formatted with its media, in ascending timestamp order; the message
    log itself is not changed by the read. *)
Theorem get_messages_reply (dl : Msg.t -> option string) (accountId jid : string)
        (w : World.t) (r : nat) (account : Account.t) :
  find_account accountId w = Some (r, account) ->
  Account.connectionState account = connected ->
  exists contact profilePic messages account',
    snd (on_get_messages dl accountId jid w)
    = [socket_emit (messages_ev accountId jid contact profilePic messages)]
    /\ contact = resolveName account jid
    /\ Permutation (map (fun msg => formatMessage dl msg true) (chat_log account jid))
         messages
    /\ StronglySorted not_later messages
    /\ World.deref r (fst (on_get_messages dl accountId jid w)) = Some account'
    /\ Account.messages account' = Account.messages account.
Proof.
  intros F C. unfold on_get_messages, resolveName. rewrite F, C.
  cbn [ConnState_eqb]. cbv iota zeta.
  pose proof (getContactInfo_frame account jid) as Fr.
  destruct (getContactInfo account jid) as [info account1].
  cbn [fst snd] in *. destruct Fr as (_ & _ & _ & _ & _ & Fm & _).
  do 4 eexists.
  split; [reflexivity|]. split; [reflexivity|].
  split; [apply array_sort_perm|]. split; [apply array_sort_ascending|].
  split; [eapply deref_store, find_account_deref; eassumption|].
  destruct (map_get (JStr jid) (Account.chats account1)); exact Fm.
Qed.

(** For a registered, connected account, a message the gateway accepted
    is appended to the chat's log, acknowledged to the requester, made
    the chat's last message and followed by one chat-list broadcast.  A
    send the gateway rejected changes nothing and reports an error to
    the requester; so does a command for an account that is unknown or
    not connected. *)
Theorem send_message_effect (dl : Msg.t -> option string) (accountId jid : string)
        (w : World.t) :
  (forall r account sent,
      find_account accountId w = Some (r, account) ->
      Account.connectionState account = connected ->
      let result := on_send_message dl accountId jid (send_ok sent) w in
      exists account' chats,
        World.deref r (fst result) = Some account'
        /\ chat_log account' jid = chat_log account jid ++ [sent]
        /\ (exists chat, map_get (JStr jid) (Account.chats account') = Some chat
                         /\ Chat.lastMessage chat = Some (formatMessage dl sent false))
        /\ snd result
           = [socket_emit (message_sent accountId jid (formatMessage dl sent false));
              io_emit (chats_update (Account.id account) chats)])
  /\ (forall r account,
        find_account accountId w = Some (r, account) ->
        Account.connectionState account = connected ->
        on_send_message dl accountId jid send_threw w
        = (w, [socket_emit (error_ev "Erro ao enviar mensagem")]))
  /\ ((forall r account, find_account accountId w = Some (r, account) ->
                         Account.connectionState account <> connected) ->
      forall outcome, on_send_message dl accountId jid outcome w = (w, not_connected)).
Proof.
  split; [|split].
  - intros r account sent F C. cbv zeta. unfold on_send_message. rewrite F, C.
    cbn [ConnState_eqb]. cbv iota.
    pose proof (updateChatInList_once dl (record_sent account jid sent) jid sent)
      as [_ Um].
    pose proof (updateChatInList_chats dl (record_sent account jid sent) jid sent) as Uc.
    pose proof (updateChatInList_emits dl (record_sent account jid sent) jid sent)
      as (chats & Ue).
    cbv zeta in Uc.
    destruct (updateChatInList dl (record_sent account jid sent) jid sent) as [a2 out].
    cbn [fst snd] in *. exists a2, chats.
    split; [eapply deref_store, find_account_deref; eassumption|].
    split.
    { rewrite <- record_sent_log. unfold chat_log. now rewrite Um. }
    split.
    { rewrite Uc. eexists. split; [apply map_get_set_same | reflexivity]. }
    now rewrite Ue.
  - intros r account F C. unfold on_send_message. now rewrite F, C.
  - intros H outcome. unfold on_send_message.
    destruct (find_account accountId w) as [[r account]|] eqn:F; [|reflexivity].
    specialize (H r account eq_refl).
    destruct (Account.connectionState account); try reflexivity. congruence.
Qed.

(** A fetch-history command never changes the process state and never
    broadcasts: whatever the account's state, it answers the requester
    with one notification. *)
Theorem get_history_read_only (dl : Msg.t -> option string) (accountId jid : string)
        (days : Z) (limit : jsnum) (now : Z) (w : World.t) :
  fst (on_get_history dl accountId jid days limit now w) = w
  /\ exists e, snd (on_get_history dl accountId jid days limit now w) = [socket_emit e].
Proof.
  unfold on_get_history.
  destruct (find_account accountId w) as [[r account]|];
    [|split; [reflexivity | eexists; reflexivity]].
  destruct (ConnState_eqb (Account.connectionState account) connected);
    [|split; [reflexivity | eexists; reflexivity]].
  destruct (history_window dl _ now days limit) as [messages total].
  split; [reflexivity | eexists; reflexivity].
Qed.

(** ** Message logs across a batch *)

Lemma logged_iff msg log :
  logged msg log = false <-> ~ In (Msg.id (Msg.key msg)) (map (fun m => Msg.id (Msg.key m)) log).
Proof.
  unfold logged. induction log as [|m log IH]; simpl.
  - split; [intros _ [] | reflexivity].
  - rewrite orb_false_iff, IH. split.
    + intros [E N] [H|H]; [|contradiction].
      apply String.eqb_neq in E. congruence.
    + intros N. split.
      * apply String.eqb_neq. intros E. apply N. now left.
      * intros H. apply N. now right.
Qed.

Lemma NoDup_app_single {A : Type} (l : list A) (x : A) :
  NoDup l -> ~ In x l -> NoDup (l ++ [x]).
Proof.
  induction l as [|a l IH]; intros N H; simpl.
  - constructor; [intros [] | constructor].
  - inversion N as [|? ? Ha Hl]; subst. constructor.
    + intros I. apply in_app_or in I as [I|[I|[]]]; [contradiction|].
      subst. apply H. now left.
    + apply IH; [assumption|]. intros I. apply H. now right.
Qed.

(** One deduplicating append keeps every log duplicate-free and only
    ever adds at the end. *)
Lemma store_message_invariant account jid msg :
  (forall j, distinct_ids (chat_log account j)) ->
  (forall j, distinct_ids (chat_log (store_message account jid msg) j))
  /\ extends_logs account (store_message account jid msg).
Proof.
  intros N. split.
  - intros j. destruct (String.eqb_spec j jid) as [->|Hne].
    + rewrite store_message_log.
      destruct (logged msg (chat_log account jid)) eqn:L; [apply N|].
      unfold distinct_ids. rewrite map_app. cbn [map].
      apply logged_iff in L.
      apply NoDup_app_single; [apply N | exact L].
    + rewrite store_message_other by assumption. apply N.
  - intros j. destruct (String.eqb_spec j jid) as [->|Hne].
    + rewrite store_message_log.
      destruct (logged msg (chat_log account jid));
        [exists []; now rewrite app_nil_r | now exists [msg]].
    + rewrite store_message_other by assumption. exists []. now rewrite app_nil_r.
Qed.

Lemma extends_logs_refl a : extends_logs a a.
Proof. intros j. exists []. now rewrite app_nil_r. Qed.

Lemma extends_logs_trans a b c : extends_logs a b -> extends_logs b c -> extends_logs a c.
Proof.
  intros H1 H2 j. destruct (H1 j) as [s1 E1]. destruct (H2 j) as [s2 E2].
  exists (s1 ++ s2). now rewrite E2, E1, app_assoc.
Qed.

(** An account whose message store equals that of a stored-to account
    has its logs. *)
Lemma logs_of_messages a b :
  Account.messages a = Account.messages b -> forall j, chat_log a j = chat_log b j.
Proof. intros H j. unfold chat_log. now rewrite H. Qed.

Lemma step_invariant (step : Account.t -> Msg.t -> Account.t) :
  (forall a m, Account.messages (step a m)
               = Account.messages (store_message a (Msg.remoteJid (Msg.key m)) m)) ->
  forall msgs a,
    (forall j, distinct_ids (chat_log a j)) ->
    (forall j, distinct_ids (chat_log (fold_left step msgs a) j))
    /\ extends_logs a (fold_left step msgs a).
Proof.
  intros Hs. induction msgs as [|m msgs IH]; intros a N; cbn [fold_left].
  - split; [exact N | apply extends_logs_refl].
  - destruct (store_message_invariant a (Msg.remoteJid (Msg.key m)) m N) as [N1 E1].
    assert (L : forall j, chat_log (step a m) j
                          = chat_log (store_message a (Msg.remoteJid (Msg.key m)) m) j)
      by (apply logs_of_messages, Hs).
    destruct (IH (step a m)) as [N2 E2].
    + intros j. rewrite L. apply N1.
    + split; [exact N2|].
      eapply extends_logs_trans; [|exact E2].
      intros j. rewrite L. apply E1.
Qed.

Lemma upsert_fold_fst dl type msgs :
  forall account log,
    fst (fold_left (messages_upsert_one dl type) msgs (account, log))
    = fold_left (fun a m => fst (messages_upsert_one dl type (a, []) m)) msgs account.
Proof.
  induction msgs as [|m msgs IH]; intros account log; cbn [fold_left]; [reflexivity|].
  assert (E : fst (messages_upsert_one dl type (account, log) m)
              = fst (messages_upsert_one dl type (account, []) m)).
  { unfold messages_upsert_one. cbv zeta.
    destruct (negb (Msg.fromMe (Msg.key m)) && _); [|reflexivity].
    destruct (getContactInfo _ _) as [info a2].
    now destruct (updateChatInList dl a2 _ m). }
  destruct (messages_upsert_one dl type (account, log) m) as [a1 l1].
  cbn [fst] in E. rewrite IH. now rewrite <- E.
Qed.

Lemma history_chats_messages chats :
  forall account,
    Account.messages (fold_left history_chat_one chats account) = Account.messages account.
Proof.
  induction chats as [|c chats IH]; intros account; cbn [fold_left]; [reflexivity|].
  rewrite IH. unfold history_chat_one. cbv zeta.
  now destruct (truthy (Chat.name c)).
Qed.

(** The gateway's message batches keep the message store well formed:
    when no chat log holds an id twice before a live batch or a bulk
    history sync, none does after it, whatever the batch repeats; and
    every log after the batch is the log before it followed by new
    messages, so nothing stored is removed or reordered. *)
Theorem gateway_batches_keep_logs (dl : Msg.t -> option string) (account : Account.t) :
  (forall jid, distinct_ids (chat_log account jid)) ->
  (forall newMessages type,
      let account' := fst (on_messages_upsert dl account newMessages type) in
      (forall jid, distinct_ids (chat_log account' jid))
      /\ extends_logs account account')
  /\ (forall syncedChats syncedMessages,
        let account' :=
          fst (on_messaging_history_set account syncedChats syncedMessages) in
        (forall jid, distinct_ids (chat_log account' jid))
        /\ extends_logs account account').
Proof.
  intros N. split.
  - intros msgs type. cbv zeta. unfold on_messages_upsert.
    rewrite upsert_fold_fst.
    apply (step_invariant (fun a m => fst (messages_upsert_one dl type (a, []) m)));
      [|exact N].
    intros a m. apply upsert_messages.
  - intros chats msgs. cbv zeta. unfold on_messaging_history_set.
    match goal with
    | |- context [broadcast_chats ?a] =>
        pose proof (broadcast_chats_once a) as [_ Fr];
        destruct Fr as (_ & _ & _ & _ & _ & Fm & _);
        pose proof (logs_of_messages _ _ Fm) as L
    end.
    pose proof (logs_of_messages _ _ (history_chats_messages chats account)) as L0.
    destruct (step_invariant history_message_one history_messages msgs
                (fold_left history_chat_one chats account)) as [N1 E1].
    + intros j. rewrite L0. apply N.
    + split.
      * intros j. rewrite L. apply N1.
      * intros j. destruct (E1 j) as [s E]. exists s. now rewrite L, E, L0.
Qed.

(** ** Names by phone number *)

Lemma in_map_set {V : Type} (k : jsval) (v : V) (m : jsmap V) (e : jsval * V) :
  In e (map_set k v m) -> e = (k, v) \/ In e m.
Proof.
  induction m as [|[k' v'] r IH]; simpl.
  - intros [<-|[]]. now left.
  - destruct (jsval_eqb k k') eqn:E.
    + apply jsval_eqb_eq in E. subst k'.
      intros [<-|H]; [now left | right; now right].
    + intros [<-|H]; [right; now left|].
      destruct (IH H) as [->|H']; [now left | right; now right].
Qed.

Lemma map_get_in {V : Type} (k : jsval) (v : V) (m : jsmap V) :
  map_get k m = Some v -> In (k, v) m.
Proof.
  induction m as [|[k' v'] r IH]; simpl; [discriminate|].
  destruct (jsval_eqb k k') eqn:E.
  - apply jsval_eqb_eq in E. subst k'. intros [= ->]. now left.
  - intros H. right. now apply IH.
Qed.

(** Once a contact has been upserted with a name, every identifier with
    the same phone number resolves to that name, provided the directory
    held no name under that phone number before. *)
Theorem same_phone_resolves_upserted_name (account : Account.t)
        (contact : WAContact.t) (jid : string) :
  let name := jsor (jsor (WAContact.name contact) (WAContact.notify contact))
                (WAContact.verifiedName contact) in
  truthy name = true ->
  getPhoneFromJid (JStr jid) = getPhoneFromJid (JStr (WAContact.id contact)) ->
  Forall (fun e => getPhoneFromJid (fst e) = getPhoneFromJid (JStr jid) ->
                   truthy (contact_display (snd e)) = false)
    (Account.contacts account) ->
  resolveName (contacts_upsert_one account contact) jid = name.
Proof.
  intros name T P Old.
  set (d := Contact.mk (or_null name) (WAContact.notify contact)
              (WAContact.verifiedName contact)).
  assert (Dd : contact_display d = name).
  { unfold contact_display, d. cbn. rewrite (or_null_truthy name T).
    rewrite (jsor_truthy_left name _ T). now apply jsor_truthy_left. }
  set (n := normalizeJid (JStr (WAContact.id contact))).
  set (contacts' := map_set n d (map_set (JStr (WAContact.id contact)) d
                                   (Account.contacts account))).
  assert (C : Account.contacts (contacts_upsert_one account contact) = contacts').
  { unfold contacts_upsert_one. cbv zeta. fold name. now rewrite T. }
  assert (R : forall e, In e contacts' ->
                getPhoneFromJid (fst e) = getPhoneFromJid (JStr jid) ->
                contact_display (snd e) = name
                \/ truthy (contact_display (snd e)) = false).
  { intros e I M. apply in_map_set in I as [->|I]; [now left|].
    apply in_map_set in I as [->|I]; [now left|].
    right. exact (proj1 (Forall_forall _ _) Old e I M). }
  assert (G : forall k c, getPhoneFromJid k = getPhoneFromJid (JStr jid) ->
                map_get k contacts' = Some c ->
                contact_display c = name \/ truthy (contact_display c) = false).
  { intros k c M H. apply (R (k, c)); [now apply map_get_in | exact M]. }
  assert (E : exact_match (contacts_upsert_one account contact) jid = name
              \/ truthy (exact_match (contacts_upsert_one account contact) jid) = false).
  { unfold exact_match. rewrite C.
    destruct (map_get (normalizeJid (JStr jid)) contacts') as [c|] eqn:G1.
    - exact (G _ c (phone_normalize (JStr jid)) G1).
    - destruct (map_get (JStr jid) contacts') as [c|] eqn:G2.
      + exact (G _ c eq_refl G2).
      + now right. }
  assert (S : phone_scan (contacts_upsert_one account contact) jid = name).
  { unfold phone_scan. rewrite C.
    destruct (find _ contacts') as [e|] eqn:F.
    - apply find_some in F as [I F]. apply andb_true_iff in F as [M Tr].
      apply String.eqb_eq in M.
      destruct (R e I M) as [H|H]; [exact H | congruence].
    - exfalso.
      assert (I : In (JStr (WAContact.id contact), d) contacts').
      { apply map_get_in. subst contacts'.
        destruct (jsval_eqb (JStr (WAContact.id contact)) n) eqn:En.
        - apply jsval_eqb_eq in En. rewrite <- En. apply map_get_set_same.
        - rewrite map_get_set_other by exact En. apply map_get_set_same. }
      pose proof (find_none _ _ F _ I) as Fn. cbn [fst snd] in Fn.
      rewrite Dd, T, P, String.eqb_refl in Fn. discriminate. }
  rewrite getContactInfo_name.
  unfold resolveName_spec, first_truthy, stored_candidates. cbn [find].
  destruct E as [E|E].
  - now rewrite E, T.
  - now rewrite E, S, T.
Qed.

(** ** The voice-note transcoder *)

Lemma read_unlinked path fs : Files.readFileSync path (Files.unlinkSync path fs) = None.
Proof.
  unfold Files.unlinkSync. induction fs as [|[p c] r IH]; simpl; [reflexivity|].
  destruct (String.eqb_spec path p) as [->|H]; simpl; [assumption|].
  destruct (String.eqb_spec path p); [contradiction | assumption].
Qed.

Lemma read_unlinked_other path path' fs :
  path' <> path ->
  Files.readFileSync path' (Files.unlinkSync path fs) = Files.readFileSync path' fs.
Proof.
  intros H. unfold Files.unlinkSync. induction fs as [|[p c] r IH]; simpl; [reflexivity|].
  destruct (String.eqb_spec path p) as [->|Hp]; simpl.
  - destruct (String.eqb_spec path' p); [contradiction | assumption].
  - now rewrite IH.
Qed.

Lemma read_append path fs fs' :
  Files.readFileSync path (fs ++ fs')
  = match Files.readFileSync path fs with
    | Some c => Some c
    | None => Files.readFileSync path fs'
    end.
Proof.
  induction fs as [|[p c] r IH]; simpl; [reflexivity|].
  now destruct (path =? p)%string.
Qed.

Lemma read_written path content fs :
  Files.readFileSync path (Files.writeFileSync path content fs) = Some content.
Proof.
  unfold Files.writeFileSync. rewrite read_append, read_unlinked. simpl.
  now rewrite String.eqb_refl.
Qed.

Lemma read_written_other path path' content fs :
  path' <> path ->
  Files.readFileSync path' (Files.writeFileSync path content fs)
  = Files.readFileSync path' fs.
Proof.
  intros H. unfold Files.writeFileSync.
  rewrite read_append, read_unlinked_other by assumption.
  destruct (Files.readFileSync path' fs); [reflexivity|]. simpl.
  destruct (String.eqb_spec path' path); [contradiction | reflexivity].
Qed.

Lemma unlinked_stays path path' fs :
  Files.readFileSync path fs = None ->
  Files.readFileSync path (Files.unlinkSync path' fs) = None.
Proof.
  intros H. destruct (String.eqb_spec path path') as [->|Hne].
  - apply read_unlinked.
  - now rewrite read_unlinked_other.
Qed.

(** Whatever the encoder does, a conversion leaves neither its input
    file nor its output file behind and touches no other file of the
    upload folder; it resolves only when the encoder ended, and then with
    the bytes the encoder wrote. *)
Theorem transcode_leaves_no_temp_files (UPLOADS : string)
        (path_join : string -> string -> string)
        (inputBuffer inputMimetype t_in t_out : string) (run : Encoder)
        (files : Files.t) :
  let inputPath :=
    path_join UPLOADS ("input_" ++ t_in ++ "." ++ inputExt inputMimetype)%string in
  let outputPath := path_join UPLOADS ("output_" ++ t_out ++ ".ogg")%string in
  let result :=
    convertAudioToOgg UPLOADS path_join inputBuffer inputMimetype t_in t_out run files in
  Files.readFileSync inputPath (snd result) = None
  /\ Files.readFileSync outputPath (snd result) = None
  /\ (forall path, path <> inputPath -> path <> outputPath ->
        Files.readFileSync path (snd result) = Files.readFileSync path files)
  /\ (forall partial, run = encoder_error partial -> fst result = None)
  /\ (forall output, run = encoder_end output -> fst result = Some output).
Proof.
  cbv zeta. unfold convertAudioToOgg. cbv zeta.
  set (inputPath := path_join UPLOADS _).
  set (outputPath := path_join UPLOADS ("output_" ++ t_out ++ ".ogg")%string).
  destruct run as [output|[bytes|]]; cbn [fst snd].
  all: split; [apply unlinked_stays, read_unlinked|].
  all: split; [apply read_unlinked|].
  all: split;
    [intros path Hi Ho;
     rewrite !read_unlinked_other, ?read_written_other by assumption;
     reflexivity|].
  - split; [discriminate|]. intros o [= ->]. apply read_written.
  - split; [reflexivity | discriminate].
  - split; [reflexivity | discriminate].
Qed.

(** ** Connecting and querying an account *)

(** A connect command never replaces the session of an account that is
    connected or awaiting its pairing scan, and it broadcasts nothing: a
    connected account only gets its status and chat list sent to the
    requester, an account awaiting its scan gets nothing at all.  For an
    account that is disconnected or has no session the command makes the
    credential folder exist and installs the new session. *)
Theorem connect_account_spec (accountId : string) (session : Sock.t) (w : World.t)
        (r : nat) (account : Account.t) :
  find_account accountId w = Some (r, account) ->
  let result := on_connect_account accountId session w in
  (Account.connectionState account = connected ->
   forallb to_requester (snd result) = true
   /\ exists account', World.deref r (fst result) = Some account'
                       /\ Account.sock account' = Account.sock account)
  /\ (Account.connectionState account = qr -> Account.sock account <> None ->
      result = (w, []))
  /\ (Account.connectionState account = disconnected \/ Account.sock account = None ->
      Account.connectionState account <> connected ->
      snd result = []
      /\ World.deref r (fst result) = Some (Account.set_sock (Some session) account)
      /\ Fs.existsSync (Account.authFolder account) (World.auth (fst result)) = true).
Proof.
  intros F. cbv zeta. unfold on_connect_account. rewrite F.
  pose proof (find_account_deref _ _ _ _ F) as D.
  split; [|split].
  - intros C. rewrite C. cbn [ConnState_eqb].
    pose proof (getFormattedChats_frame account) as Fr.
    destruct (getFormattedChats account) as [chats a1]. cbn [fst snd] in *.
    destruct Fr as (_ & _ & Fs & _).
    split; [reflexivity|]. exists a1. split; [eapply deref_store, D | exact Fs].
  - intros C S. rewrite C. cbn [ConnState_eqb].
    destruct (Account.sock account); [reflexivity | congruence].
  - intros H N.
    assert (G : match Account.sock account with
                | Some _ => false
                | None => true
                end || ConnState_eqb (Account.connectionState account) disconnected
                = true).
    { destruct H as [->| ->]; [apply orb_true_r | reflexivity]. }
    assert (NC : ConnState_eqb (Account.connectionState account) connected = false)
      by (destruct (Account.connectionState account) eqn:Ec;
          try reflexivity; congruence).
    rewrite NC, G. cbn [fst snd]. unfold connectAccount. rewrite D.
    split; [reflexivity|].
    split; [eapply deref_store;
            destruct (negb (Fs.existsSync _ _)); exact D|].
    destruct (Fs.existsSync (Account.authFolder account) (World.auth w)) eqn:E;
      cbn [negb World.store World.auth World.set_auth]; [exact E|].
    unfold Fs.mkdirSync. rewrite E. unfold Fs.existsSync in *.
    destruct (Fs.lookup (Account.authFolder account) (World.auth w)) eqn:L;
      [discriminate|].
    rewrite fs_lookup_app by exact L. simpl. now rewrite String.eqb_refl.
Qed.

(** ** Instances of the further properties *)

Lemma read_then_inbound_counts_one_witness :
  exists account',
    World.deref 0 (fst (on_get_messages no_media "acc_1" ana_jid
                          (sample_world busy_account))) = Some account'
    /\ unread busy_account ana_jid = 3
    /\ unread account' ana_jid = 0
    /\ unread (fst (on_messages_upsert no_media account' [inbound_2] notify)) ana_jid = 1.
Proof.
  destruct (read_then_inbound_counts_one no_media "acc_1" (sample_world busy_account)
              0%nat busy_account inbound_2 eq_refl eq_refl eq_refl)
    as (account' & D & Z0 & Z1).
  exists account'. repeat split; assumption.
Defined.

Lemma quiet_batches_witness :
  snd (on_messages_upsert no_media busy_account [outbound_1; inbound_2] append) = []
  /\ Account.chats (fst (on_messages_upsert no_media busy_account
                           [outbound_1; inbound_2] append))
     = Account.chats busy_account.
Proof.
  apply (quiet_batches no_media busy_account [outbound_1; inbound_2] append).
  repeat constructor.
Defined.

Lemma chats_update_never_adds_witness :
  Account.chats (fst (on_chats_update busy_account [unknown_chat_update]))
  = Account.chats busy_account.
Proof.
  apply (proj2 (chats_update_never_adds busy_account [unknown_chat_update])).
  intros update [<-|[]]. reflexivity.
Defined.

Lemma recoverable_close_witness :
  let w' := fst (on_connection_update 401 identity_url sample_sock 0
                   (ConnUpdate.mk (Some conn_close) (Some 428) JUndef)
                   (sample_world busy_account)) in
  World.deref 0 w' = Some (Account.set_connectionState disconnected busy_account)
  /\ World.auth w' = [("auth/acc_1", ["creds.json"])]
  /\ World.reconnects w' = [0%nat].
Proof.
  destruct (recoverable_close_keeps_session_data 401 identity_url sample_sock 0%nat
              (sample_world busy_account) busy_account (Some 428) eq_refl)
    as (D & A & _ & _ & T); [discriminate|].
  repeat split; assumption.
Defined.

Lemma open_records_phone_number_witness :
  exists account',
    World.deref 0 (fst (on_connection_update 401 identity_url sample_sock 0
                          (ConnUpdate.mk (Some conn_open) None JUndef)
                          (sample_world sample_account))) = Some account'
    /\ Account.connectionState account' = connected
    /\ Account.phoneNumber account' = JStr "5511888887777".
Proof.
  destruct (open_records_phone_number 401 identity_url sample_sock 0%nat
              (sample_world sample_account) sample_account None eq_refl eq_refl)
    as (_ & _ & account' & data & D & C & _ & P & _).
  exists account'. repeat split; assumption.
Defined.

Lemma save_load_round_trip_witness :
  World.values
    (loadAccountsFromFile "auth" join_slash
       (fresh_process []
          (World.accounts_file (saveAccountsToFile (sample_world busy_account)))))
  = [restart_of "auth" join_slash busy_account].
Proof.
  assert (N : NoDup (map Account.id (World.values (sample_world busy_account)))).
  { cbn. constructor; [intros [] | constructor]. }
  exact (proj1 (save_load_round_trip "auth" join_slash (sample_world busy_account) [] N)).
Defined.

Lemma create_account_registers_witness :
  find_account "acc_2"
    (fst (on_create_account "auth" join_slash "acc_2" JUndef (sample_world busy_account)))
  = Some (1%nat, new_Account "auth" join_slash "acc_2" JUndef)
  /\ Account.name (new_Account "auth" join_slash "acc_2" JUndef) = "Conta acc_2".
Proof.
  destruct (create_account_registers "auth" join_slash "acc_2" JUndef
              (sample_world busy_account) eq_refl) as (F & N & _).
  split; assumption.
Defined.

Lemma rename_account_effect_witness :
  find_account "acc_1"
    (fst (on_rename_account "acc_1" "Trabalho" (sample_world busy_account)))
  = Some (0%nat, account_set_name "Trabalho" busy_account).
Proof.
  apply (proj2 (rename_account_effect "acc_1" "Trabalho" (sample_world busy_account))
           0%nat busy_account eq_refl).
Defined.

Lemma delete_account_effect_witness :
  find_account "acc_1" (fst (on_delete_account "acc_1" (sample_world busy_account))) = None
  /\ Fs.lookup "auth/acc_1"
       (World.auth (fst (on_delete_account "acc_1" (sample_world busy_account)))) = None.
Proof.
  destruct (proj2 (delete_account_effect "acc_1" (sample_world busy_account))
              0%nat busy_account eq_refl) as (F & L & _).
  split; assumption.
Defined.

Lemma deleted_account_folder_returns_witness :
  let w1 := fst (on_delete_account "acc_1" (sample_world busy_account)) in
  let w2 := fst (on_connection_update 401 identity_url sample_sock 0
                   (logged_out_close 401) w1) in
  Fs.lookup "auth/acc_1" (World.auth w1) = None
  /\ find_account "acc_1" w2 = None
  /\ Fs.lookup "auth/acc_1" (World.auth w2) = Some [].
Proof.
  exact (deleted_account_folder_returns 401 identity_url sample_sock "acc_1"
           (sample_world busy_account) 0%nat busy_account eq_refl).
Defined.

Lemma start_new_chat_spec_witness :
  snd (on_start_new_chat "acc_1" "(11) 99999-0000" knows_ana (sample_world busy_account))
  = [new_chat_ready "acc_1" ana_jid (JStr "Ana") JNull].
Proof.
  exact (proj2 (proj2 (start_new_chat_spec "acc_1" "(11) 99999-0000" knows_ana
                         (sample_world busy_account)))
           0%nat busy_account sample_sock (OnWhatsApp.mk true ana_jid) []
           eq_refl eq_refl eq_refl eq_refl eq_refl).
Defined.

Lemma get_messages_reply_witness :
  exists contact profilePic messages account',
    snd (on_get_messages no_media "acc_1" ana_jid (sample_world busy_account))
    = [socket_emit (messages_ev "acc_1" ana_jid contact profilePic messages)]
    /\ contact = resolveName busy_account ana_jid
    /\ Permutation (map (fun msg => formatMessage no_media msg true)
                      (chat_log busy_account ana_jid)) messages
    /\ StronglySorted not_later messages
    /\ World.deref 0 (fst (on_get_messages no_media "acc_1" ana_jid
                             (sample_world busy_account))) = Some account'
    /\ Account.messages account' = Account.messages busy_account.
Proof.
  exact (get_messages_reply no_media "acc_1" ana_jid (sample_world busy_account)
           0%nat busy_account eq_refl eq_refl).
Defined.

Lemma send_message_effect_witness :
  exists account',
    World.deref 0 (fst (on_send_message no_media "acc_1" ana_jid (send_ok outbound_1)
                          (sample_world busy_account))) = Some account'
    /\ chat_log account' ana_jid = [inbound_1; outbound_1].
Proof.
  destruct (proj1 (send_message_effect no_media "acc_1" ana_jid
                     (sample_world busy_account))
              0%nat busy_account outbound_1 eq_refl eq_refl)
    as (account' & chats & D & L & _).
  exists account'. split; assumption.
Defined.

Lemma gateway_batches_keep_logs_witness :
  (forall jid, distinct_ids (chat_log sample_account jid))
  /\ forall jid,
       distinct_ids
         (chat_log (fst (on_messages_upsert no_media sample_account
                           [inbound_1; inbound_1; inbound_2] notify)) jid).
Proof.
  assert (N : forall jid, distinct_ids (chat_log sample_account jid))
    by (intros jid; constructor).
  split; [exact N|].
  apply (proj1 (gateway_batches_keep_logs no_media sample_account N)
           [inbound_1; inbound_1; inbound_2] notify).
Defined.

Lemma same_phone_resolves_upserted_name_witness :
  resolveName (contacts_upsert_one sample_account ana) "5511999" = JStr "Ana".
Proof.
  exact (same_phone_resolves_upserted_name sample_account ana "5511999"
           eq_refl eq_refl (Forall_nil _)).
Defined.

Lemma connect_account_spec_witness :
  on_connect_account "acc_1" sample_sock
    (sample_world (Account.set_connectionState qr busy_account))
  = (sample_world (Account.set_connectionState qr busy_account), []).
Proof.
  apply (proj1 (proj2 (connect_account_spec "acc_1" sample_sock
                         (sample_world (Account.set_connectionState qr busy_account))
                         0%nat (Account.set_connectionState qr busy_account) eq_refl)));
    [reflexivity | discriminate].
Defined.
